(** * TEpollSocket: the connection-level byte pump of the TreeFrog epoll server

    A shallow embedding of [src/tepollsocket.cpp].  Every method of the
    class is a function over an explicit handle record ([TEpollSocket]) and
    an explicit process state ([World]: the thread's [errno], the two file
    statics and the answers the operating system is going to give).  What a
    method does to the outside (system calls, log lines, requests to the
    poller, destruction of queued buffers) is returned as a list of
    [Event]s, oldest first.

    The [int] values the code only compares or passes on (descriptors,
    lengths, error codes) are kept in [Z]; the one sum the class computes
    itself, in [bufferedBytes], is reduced to 64 bits at each step. *)

From Stdlib Require Import String.
From Stdlib Require Import Strings.Byte.
From Stdlib Require Import ZArith List Bool Lia.
Import ListNotations.

Local Open Scope Z_scope.

Set Implicit Arguments.

(** ** Constants of the platform headers (Linux values) *)

Module Sys.
(* <errno.h> *)
Definition EAGAIN     : Z := 11.
Definition EPIPE      : Z := 32.
Definition ECONNRESET : Z := 104.
(* <sys/epoll.h> *)
Definition EPOLLIN  : Z := 1.
Definition EPOLLOUT : Z := 4.
Definition EPOLLET  : Z := Z.shiftl 1 31.
(* <sys/socket.h> *)
Definition SOCK_CLOEXEC  : Z := 524288.
Definition SOCK_NONBLOCK : Z := 2048.
Definition MSG_NOSIGNAL  : Z := 16384.
Definition SOL_SOCKET : Z := 1.
Definition SO_SNDBUF  : Z := 7.
Definition SO_RCVBUF  : Z := 8.
End Sys.

(** ** Machine integers *)

(** A [qint64] accumulator: the value of a sum reduced to 64 bits, two's
    complement. *)
Definition qint64 (z : Z) : Z := (z + 2 ^ 63) mod 2 ^ 64 - 2 ^ 63.

(** ** Data model *)

Definition bytes := list byte.

(** [QByteArray::size], [QFile::size]. *)
Definition size (b : bytes) : Z := Z.of_nat (length b).

(** [QByteArray::mid (pos, len)]: a negative [len] means up to the end. *)
Definition mid (pos : nat) (len : Z) (b : bytes) : bytes :=
  if len <? 0 then skipn pos b else firstn (Z.to_nat len) (skipn pos b).

(** Modelled from the spec: the access logger ([TAccessLogger], declared
    outside [src/]) is an accumulator whose [response_bytes] field is
    updated as bytes are transmitted, or set to the sentinel -1. *)
Record TAccessLogger : Type := mkLogger { responseBytes : Z }.

Definition setResponseBytes (n : Z) (_ : TAccessLogger) : TAccessLogger :=
  mkLogger n.

(** A file opened for reading; [QFile::size] is the length of its
    contents. *)
Record QFile : Type := mkFile { fileData : bytes }.

(** Modelled from the spec: the outbound buffer ([TSendBuffer],
    [tsendbuffer.h] is not under [src/]).  The payload is an in-memory
    byte sequence, or a header followed by a file-backed stream with an
    auto-remove flag; [startPos] is the cursor, the number of payload bytes
    already consumed.  [arrayBuffer] and [bodyFile] are the two members
    [TEpollSocket::bufferedBytes] reads. *)
Record TSendBuffer : Type := mkSendBuffer {
  arrayBuffer  : bytes;
  bodyFile     : option QFile;
  fileRemove   : bool;
  startPos     : nat;
  accessLogger : TAccessLogger
}.

Definition bodyBytes (b : TSendBuffer) : bytes :=
  match bodyFile b with
  | Some f => fileData f
  | None => []
  end.

(** The whole payload: header (or in-memory data), then the file body. *)
Definition payload (b : TSendBuffer) : bytes := arrayBuffer b ++ bodyBytes b.

(** What is left to transmit. *)
Definition unsent (b : TSendBuffer) : bytes := skipn (startPos b) (payload b).

(** Modelled from the spec: [TSendBuffer::getData (int &size)] yields the
    next chunk, bounded by [size]; the length of the chunk is stored back
    into [size], zero when the payload is fully consumed. *)
Definition getData (b : TSendBuffer) (sz : Z) : bytes * Z :=
  let chunk := firstn (Z.to_nat sz) (unsent b) in
  (chunk, size chunk).

(** Modelled from the spec: [TSendBuffer::seekData (len)] advances the
    cursor by [len]. *)
Definition seekData (b : TSendBuffer) (len : Z) : TSendBuffer :=
  mkSendBuffer (arrayBuffer b) (bodyFile b) (fileRemove b)
               (startPos b + Z.to_nat len) (accessLogger b).

(** Modelled from the spec: [TSendBuffer::atEnd], the completion predicate,
    holds when the cursor has consumed the entire payload. *)
Definition atEnd (b : TSendBuffer) : bool :=
  (length (payload b) <=? startPos b)%nat.

(** The logger is reached through a reference into the buffer
    ([TAccessLogger &logger = buf->accessLogger ()]): an update of the
    logger is an update of the buffer. *)
Definition withLogger (f : TAccessLogger -> TAccessLogger) (b : TSendBuffer)
  : TSendBuffer :=
  mkSendBuffer (arrayBuffer b) (bodyFile b) (fileRemove b) (startPos b)
               (f (accessLogger b)).

(** Modelled from the spec: the receive buffer, an owned, growable byte
    region with a logical end ([getRecvBuffer] and [seekRecvBuffer] are
    virtual; their bodies are in subclasses outside [src/]).  [rbData] is
    the region before the logical end, [rbSpare] the allocated region after
    it. *)
Record RecvBuffer : Type := mkRecvBuffer {
  rbData  : bytes;
  rbSpare : bytes
}.

(** Modelled from the spec: [getRecvBuffer (size)] hands out a writable
    slice of at least [size] bytes past the logical end, growing the region
    on demand. *)
Definition getRecvBuffer (rb : RecvBuffer) (sz : Z) : RecvBuffer :=
  mkRecvBuffer (rbData rb)
    (rbSpare rb ++ repeat x00 (Z.to_nat sz - length (rbSpare rb))).

(** What a read does to the slice: the kernel stores at most [sz] bytes at
    its start. *)
Definition storeRecv (rb : RecvBuffer) (sz : Z) (d : bytes) : RecvBuffer :=
  let d' := firstn (Z.to_nat sz) d in
  mkRecvBuffer (rbData rb) (d' ++ skipn (length d') (rbSpare rb)).

(** Modelled from the spec: [seekRecvBuffer (len)] advances the logical end
    by [len]. *)
Definition seekRecvBuffer (rb : RecvBuffer) (len : Z) : RecvBuffer :=
  mkRecvBuffer (rbData rb ++ firstn (Z.to_nat len) (rbSpare rb))
               (skipn (Z.to_nat len) (rbSpare rb)).

Definition QHostAddress := bytes.

(** The handle.  [deletePosted] is the one piece of [QObject] state the
    class relies on: [QObject::deleteLater ()] has been called, the object
    is handed over for destruction. *)
Record TEpollSocket : Type := mkSocket {
  deleting        : bool;
  myWorkerCounter : Z;
  sd              : Z;
  uuid            : bytes;
  clientAddr      : QHostAddress;
  sendBuf         : list TSendBuffer;
  recvBuf         : RecvBuffer;
  deletePosted    : bool
}.

(** ** The outside world *)

Inductive LogLevel : Type := LDebug | LWarn | LError.

Inductive LogArg : Type :=
| AInt (z : Z)
| AStr (s : bytes).

Inductive Event : Type :=
| EvLog (lv : LogLevel) (fmt : string) (args : list LogArg)
| EvAccept4 (listening flags : Z)
| EvGetsockopt (fd level opt : Z)
| EvRecv (fd sz flags : Z)
| EvSend (fd : Z) (data : bytes) (flags : Z)
| EvClose (fd : Z)
| EvCreateUuid
| EvNewSocket (fd : Z) (addr : QHostAddress)
| EvMoveToThread (id : bytes)
| EvLoggerWrite (lg : TAccessLogger)
| EvDeleteBuffer (b : TSendBuffer)
| EvModifyPoll (id : bytes) (events : Z)
| EvSetSendDataFile (id : bytes) (header : bytes) (body : option QFile)
                    (autoRemove : bool) (lg : TAccessLogger)
| EvSetSendData (id : bytes) (data : bytes)
| EvSetDisconnect (id : bytes)
| EvSetSwitchToWebSocket (id : bytes) (header : bytes).

(** What an external primitive hands back. *)
Inductive OutArg : Type :=
| NoOut
| OutInt (v : Z)
| OutBytes (b : bytes).

Record Answer : Type := mkAnswer {
  ansRet   : Z;          (* the return value *)
  ansErrno : option Z;   (* the value it stored into errno, if it did *)
  ansOut   : OutArg      (* what it stored through its out-pointer *)
}.

Definition outBytes (a : Answer) : bytes :=
  match ansOut a with
  | OutBytes b => b
  | _ => []
  end.

Record World : Type := mkWorld {
  errno       : Z;             (* the reactor thread's errno *)
  sendBufSize : Z;             (* static int sendBufSize *)
  recvBufSize : Z;             (* static int recvBufSize *)
  oracle      : list Answer    (* answers of the coming external calls *)
}.

(** [errno] after a primitive answered [a], when it held [e] before. *)
Definition errnoAfter (e : Z) (a : Answer) : Z :=
  match ansErrno a with
  | Some e' => e'
  | None => e
  end.

(** ** TEpollSocket::bufferedBytes *)

Definition bufferedBytes_step (ret : Z) (d : TSendBuffer) : Z :=
  let ret := qint64 (ret + size (arrayBuffer d)) in
  match bodyFile d with
  | Some f => qint64 (ret + size (fileData f))
  | None => ret
  end.

Definition bufferedBytes (this : TEpollSocket) : Z :=
  fold_left bufferedBytes_step (sendBuf this) 0.

(** TEpollSocket::bufferedListCount *)
Definition bufferedListCount (this : TEpollSocket) : Z :=
  Z.of_nat (length (sendBuf this)).

(** ** Field updates *)

Definition setDeleting (v : bool) (s : TEpollSocket) : TEpollSocket :=
  mkSocket v (myWorkerCounter s) (sd s) (uuid s) (clientAddr s) (sendBuf s)
           (recvBuf s) (deletePosted s).

Definition setSd (v : Z) (s : TEpollSocket) : TEpollSocket :=
  mkSocket (deleting s) (myWorkerCounter s) v (uuid s) (clientAddr s)
           (sendBuf s) (recvBuf s) (deletePosted s).

Definition setSendBuf (v : list TSendBuffer) (s : TEpollSocket)
  : TEpollSocket :=
  mkSocket (deleting s) (myWorkerCounter s) (sd s) (uuid s) (clientAddr s) v
           (recvBuf s) (deletePosted s).

Definition setRecvBuf (v : RecvBuffer) (s : TEpollSocket) : TEpollSocket :=
  mkSocket (deleting s) (myWorkerCounter s) (sd s) (uuid s) (clientAddr s)
           (sendBuf s) v (deletePosted s).

Definition setDeletePosted (v : bool) (s : TEpollSocket) : TEpollSocket :=
  mkSocket (deleting s) (myWorkerCounter s) (sd s) (uuid s) (clientAddr s)
           (sendBuf s) (recvBuf s) v.

(** What a method hands back: its return value, the handle and the world
    after it, and what it did to the outside.  [None] stands for a call
    that is still waiting for an answer the oracle does not hold. *)
Definition Result (A : Type) : Type :=
  option (A * TEpollSocket * World * list Event).

(** ** Construction: accept, create, initBuffer *)

Definition BUF_SIZE : Z := 128 * 1024.

(** [getsockopt (..., &var, &optlen)]: on success the kernel stores the
    option value into [var]. *)
Definition storeInt (old : Z) (a : Answer) : Z :=
  match ansOut a with
  | OutInt v => v
  | _ => old
  end.

(** TEpollSocket::initBuffer *)
Definition initBuffer (socketDescriptor : Z) (w : World)
  : option (World * list Event) :=
  if sendBufSize w =? 0 then
    match oracle w with
    | a1 :: a2 :: k =>
        let snd_sz := storeInt (sendBufSize w) a1 in
        let snd_sz := if ansRet a1 <? 0 then BUF_SIZE else snd_sz in
        let rcv_sz := storeInt (recvBufSize w) a2 in
        let rcv_sz := if ansRet a2 <? 0 then BUF_SIZE else rcv_sz in
        Some (mkWorld (errnoAfter (errnoAfter (errno w) a1) a2)
                      snd_sz rcv_sz k,
              [EvGetsockopt socketDescriptor Sys.SOL_SOCKET Sys.SO_SNDBUF;
               EvGetsockopt socketDescriptor Sys.SOL_SOCKET Sys.SO_RCVBUF])
    | _ => None
    end
  else Some (w, []).

(** TEpollSocket::TEpollSocket.  [QUuid::createUuid] is one more external
    call; its text comes wrapped in braces and [mid] strips them. *)
Definition construct (socketDescriptor : Z) (address : QHostAddress)
    (w : World) : option (TEpollSocket * World * list Event) :=
  match oracle w with
  | [] => None
  | a :: k =>
      let u := outBytes a in
      let u := mid 1 (size u - 2) u in
      Some (mkSocket false 0 socketDescriptor u address []
                     (mkRecvBuffer [] []) false,
            mkWorld (errno w) (sendBufSize w) (recvBufSize w) k,
            [EvCreateUuid; EvLog LDebug "TEpollSocket  id:%s" [AStr u]])
  end.

(** TEpollSocket::create *)
Definition create (socketDescriptor : Z) (address : QHostAddress) (w : World)
  : option (option TEpollSocket * World * list Event) :=
  if 0 <? socketDescriptor then
    match construct socketDescriptor address w with
    | None => None
    | Some (sock, w1, ev1) =>
        match initBuffer socketDescriptor w1 with
        | None => None
        | Some (w2, ev2) =>
            Some (Some sock, w2,
                  EvNewSocket socketDescriptor address :: ev1
                  ++ EvMoveToThread (uuid sock) :: ev2)
        end
    end
  else Some (None, w, []).

(** TEpollSocket::accept *)
Definition accept (listeningSocket : Z) (w : World)
  : option (option TEpollSocket * World * list Event) :=
  match oracle w with
  | [] => None
  | a :: k =>
      let actfd := ansRet a in
      let err := errnoAfter (errno w) a in
      let w1 := mkWorld err (sendBufSize w) (recvBufSize w) k in
      let call :=
        EvAccept4 listeningSocket
                  (Z.lor Sys.SOCK_CLOEXEC Sys.SOCK_NONBLOCK) in
      if actfd <? 0 then
        Some (None, w1,
              call :: (if negb (err =? Sys.EAGAIN)
                       then [EvLog LWarn "Failed accept.  errno:%d"
                                   [AInt err]]
                       else []))
      else
        match create actfd (outBytes a) w1 with
        | None => None
        | Some (s, w2, ev) => Some (s, w2, call :: ev)
        end
  end.

(** Modelled from the spec: the two constructors of [TSendBuffer]; a new
    buffer has its cursor at zero. *)
Definition newSendBufferFile (header : bytes) (file : option QFile)
    (autoRemove : bool) (logger : TAccessLogger) : TSendBuffer :=
  mkSendBuffer header file autoRemove 0 logger.

Definition newSendBuffer (data : bytes) : TSendBuffer :=
  mkSendBuffer data None false 0 (mkLogger 0).

(** TEpollSocket::createSendBuffer (header, file, autoRemove, logger) *)
Definition createSendBufferFile (header : bytes) (file : option QFile)
    (autoRemove : bool) (logger : TAccessLogger) : TSendBuffer :=
  newSendBufferFile header file autoRemove logger.

(** TEpollSocket::createSendBuffer (data) *)
Definition createSendBuffer (data : bytes) : TSendBuffer :=
  newSendBuffer data.

(** ** Destruction: close, the destructor, deleteLater *)

(** TEpollSocket::close *)
Definition close (this : TEpollSocket) : TEpollSocket * list Event :=
  if 0 <? sd this then (setSd 0 this, [EvClose (sd this)]) else (this, []).

(** TEpollSocket::~TEpollSocket: the descriptor is closed, then every
    queued buffer is deleted and the queue cleared.  Nothing here calls
    [TAccessLogger::write]. *)
Definition destructor (this : TEpollSocket) : TEpollSocket * list Event :=
  let '(this1, ev) := close this in
  (setSendBuf [] this1,
   EvLog LDebug "TEpollSocket::destructor" [] :: ev
   ++ map EvDeleteBuffer (sendBuf this1)).

(** [QObject::deleteLater]: Qt takes the object over for deletion; calling
    it again changes nothing. *)
Definition QObject_deleteLater (this : TEpollSocket) : TEpollSocket :=
  setDeletePosted true this.

(** Qt deleting an object handed over to it: the destructor runs. *)
Definition deferredDelete (this : TEpollSocket)
  : option (TEpollSocket * list Event) :=
  if deletePosted this then Some (destructor this) else None.

(** TEpollSocket::deleteLater *)
Definition deleteLater (this : TEpollSocket) : TEpollSocket * list Event :=
  let ev := [EvLog LDebug "TEpollSocket::deleteLater  countWorker:%d"
                   [AInt (myWorkerCounter this)]] in
  let this1 := setDeleting true this in
  if myWorkerCounter this1 =? 0
  then (QObject_deleteLater this1, ev)
  else (this1, ev).

(** ** Receiving *)

(** The [for (;;)] of [recv]: one answer of the kernel per turn.  Yields
    the captured [err], the buffer, the unread answers and the calls
    made. *)
Fixpoint recv_loop (fd sz : Z) (k : list Answer) (rb : RecvBuffer)
  : option (Z * RecvBuffer * list Answer * list Event) :=
  match k with
  | [] => None
  | a :: k' =>
      let buf := getRecvBuffer rb sz in
      (* errno = 0; len = tf_recv (sd, buf, recvBufSize, 0); err = errno *)
      let rb' := storeRecv buf sz (outBytes a) in
      let len := ansRet a in
      let err := errnoAfter 0 a in
      if len <=? 0 then Some (err, rb', k', [EvRecv fd sz 0])
      else
        match recv_loop fd sz k' (seekRecvBuffer rb' len) with
        | Some (err', rb'', k'', ev) =>
            Some (err', rb'', k'', EvRecv fd sz 0 :: ev)
        | None => None
        end
  end.

(** TEpollSocket::recv; 0: success, -1: error. *)
Definition recv (this : TEpollSocket) (w : World) : Result Z :=
  match recv_loop (sd this) (recvBufSize w) (oracle w) (recvBuf this) with
  | None => None
  | Some (err, rb, k, ev) =>
      let this' := setRecvBuf rb this in
      let w' := mkWorld err (sendBufSize w) (recvBufSize w) k in
      if err =? Sys.EAGAIN then Some (0, this', w', ev)
      else if (err =? 0) || (err =? Sys.ECONNRESET) then
        Some (-1, this', w',
              ev ++ [EvLog LDebug "Socket disconnected : sd:%d  errno:%d"
                           [AInt (sd this); AInt err]])
      else
        Some (-1, this', w',
              ev ++ [EvLog LError "Failed recv : sd:%d  errno:%d"
                           [AInt (sd this); AInt err]])
  end.

(** ** Sending *)

(** The state of the locals when the [for (;;)] of [send] is left. *)
Record SendLoop : Type := mkSendLoop {
  slErrno  : Z;               (* errno *)
  slErr    : Z;               (* err *)
  slLen    : Z;               (* len *)
  slBuf    : TSendBuffer;     (* *buf, the head of the queue *)
  slOracle : list Answer;
  slEvents : list Event
}.

Definition addResponseBytes (len : Z) (lg : TAccessLogger) : TAccessLogger :=
  setResponseBytes (responseBytes lg + len) lg.

Fixpoint send_loop (fd sz e err : Z) (buf : TSendBuffer) (k : list Answer)
  : option SendLoop :=
  let '(data, len) := getData buf sz in
  if len =? 0 then Some (mkSendLoop e err len buf k [])
  else
    match k with
    | [] => None
    | a :: k' =>
        (* errno = 0; len = tf_send (sd, data, len, MSG_NOSIGNAL);
           err = errno *)
        let call := EvSend fd data Sys.MSG_NOSIGNAL in
        let len := ansRet a in
        let err := errnoAfter 0 a in
        if len <=? 0 then Some (mkSendLoop err err len buf k' [call])
        else
          let buf := seekData buf len in
          let buf := withLogger (addResponseBytes len) buf in
          match send_loop fd sz err err buf k' with
          | Some r =>
              Some (mkSendLoop (slErrno r) (slErr r) (slLen r) (slBuf r)
                               (slOracle r) (call :: slEvents r))
          | None => None
          end
    end.

Definition rearmEvents : Z :=
  Z.lor (Z.lor Sys.EPOLLIN Sys.EPOLLOUT) Sys.EPOLLET.

(** The [switch (err)] of [send]: the return value, the head with its
    logger updated, and the log line. *)
Definition send_classify (fd : Z) (r : SendLoop)
  : Z * TSendBuffer * list Event :=
  let err := slErr r in
  if (err =? 0) || (err =? Sys.EAGAIN) then (0, slBuf r, [])
  else if err =? Sys.EPIPE then
    (-1, withLogger (setResponseBytes (-1)) (slBuf r),
     [EvLog LDebug "Socket disconnected : sd:%d  errno:%d"
            [AInt fd; AInt err]])
  else
    (-1, withLogger (setResponseBytes (-1)) (slBuf r),
     [EvLog LError "Failed send : sd:%d  errno:%d  len:%d"
            [AInt fd; AInt err; AInt (slLen r)]]).

(** The tail of [send], after the loop: classification, finalization of
    the head, re-arming. *)
Definition send_finish (this : TEpollSocket) (w : World)
    (rest : list TSendBuffer) (r : SendLoop)
  : Z * TEpollSocket * World * list Event :=
  let '(ret, buf, evLog) := send_classify (sd this) r in
  let '(queue, evFin) :=
    if atEnd buf || (ret <? 0)
    then (rest, [EvLoggerWrite (accessLogger buf); EvDeleteBuffer buf])
    else (buf :: rest, []) in
  let evPoll :=
    if negb (slErr r =? Sys.EAGAIN) && negb (length queue =? 0)%nat
    then [EvModifyPoll (uuid this) rearmEvents]
    else [] in
  (ret, setSendBuf queue this,
   mkWorld (slErrno r) (sendBufSize w) (recvBufSize w) (slOracle r),
   slEvents r ++ evLog ++ evFin ++ evPoll).

(** TEpollSocket::send; 0: success, -1: error. *)
Definition send (this : TEpollSocket) (w : World) : Result Z :=
  match sendBuf this with
  | [] => Some (0, this, w, [])
  | buf :: rest =>
      if deleting this then Some (0, this, w, [])
      else
        match send_loop (sd this) (sendBufSize w) (errno w) 0 buf
                        (oracle w) with
        | None => None
        | Some r => Some (send_finish this w rest r)
        end
  end.

(** The value of the local [err] when a call of [send] gets to its
    [switch]; a call that returns at one of the two guards has none. *)
Definition send_err (this : TEpollSocket) (w : World) : option Z :=
  match sendBuf this with
  | [] => None
  | buf :: _ =>
      if deleting this then None
      else option_map slErr
             (send_loop (sd this) (sendBufSize w) (errno w) 0 buf (oracle w))
  end.

(** TEpollSocket::enqueueSendData *)
Definition enqueueSendData (buffer : TSendBuffer) (this : TEpollSocket)
  : TEpollSocket :=
  setSendBuf (sendBuf this ++ [buffer]) this.

(** TEpollSocket::setSocketDescpriter *)
Definition setSocketDescpriter (socketDescriptor : Z) (this : TEpollSocket)
  : TEpollSocket :=
  setSd socketDescriptor this.

(** ** Requests handed to the poller *)

(** TEpollSocket::sendData (header, body, autoRemove, accessLogger) *)
Definition sendDataFile (this : TEpollSocket) (header : bytes)
    (body : option QFile) (autoRemove : bool) (lg : TAccessLogger)
  : list Event :=
  if negb (deleting this)
  then [EvSetSendDataFile (uuid this) header body autoRemove lg]
  else [].

(** TEpollSocket::sendData (data) *)
Definition sendData (this : TEpollSocket) (data : bytes) : list Event :=
  if negb (deleting this) then [EvSetSendData (uuid this) data] else [].

(** TEpollSocket::disconnect *)
Definition disconnect (this : TEpollSocket) : list Event :=
  if negb (deleting this) then [EvSetDisconnect (uuid this)] else [].

(** TEpollSocket::switchToWebSocket *)
Definition switchToWebSocket (this : TEpollSocket) (header : bytes)
  : list Event :=
  if negb (deleting this)
  then [EvSetSwitchToWebSocket (uuid this) header]
  else [].

(** * Vocabulary of the properties *)

(** What one queued buffer contributes to [bufferedBytes]: the size of its
    byte array and, when it has a body file, the size of that file. *)
Definition storedBytes (d : TSendBuffer) : Z :=
  size (arrayBuffer d)
  + match bodyFile d with
    | Some f => size (fileData f)
    | None => 0
    end.

(** What the specification calls the remaining unsent length of a buffer:
    the in-memory size minus the cursor or, for a file-backed buffer, the
    file size minus the cursor. *)
Definition remainingLength (d : TSendBuffer) : Z :=
  match bodyFile d with
  | Some f => size (fileData f) - Z.of_nat (startPos d)
  | None => size (arrayBuffer d) - Z.of_nat (startPos d)
  end.

Definition sumZ (l : list Z) : Z := fold_right Z.add 0 l.

(** ** Sample states *)

Definition quietWorld (k : list Answer) : World := mkWorld 0 4096 4096 k.

(** A handle with five bytes queued in memory, nothing sent yet. *)
Definition fiveBytesQueued : TEpollSocket :=
  mkSocket false 0 7 [x30] [] [createSendBuffer [x41; x42; x43; x44; x45]]
    (mkRecvBuffer [] []) false.

(** The same handle in the middle of the transmission: the first two bytes
    are on the wire. *)
Definition midTransmission : TEpollSocket :=
  mkSocket false 0 7 [x30] []
    [mkSendBuffer [x41; x42; x43; x44; x45] None false 2 (mkLogger 2)]
    (mkRecvBuffer [] []) false.

(** A handle in the middle of a file: no header, a file of three bytes, two
    of them on the wire. *)
Definition midFile : TEpollSocket :=
  mkSocket false 0 7 [x30] []
    [mkSendBuffer [] (Some (mkFile [x63; x64; x65])) true 2 (mkLogger 2)]
    (mkRecvBuffer [] []) false.

(** A handle marked for deletion while one worker still holds it. *)
Definition drainingHandle : TEpollSocket :=
  mkSocket true 1 7 [x30] [] [createSendBuffer [x41; x42]]
           (mkRecvBuffer [] []) false.

(** The call the acceptor makes. *)
Definition acceptCall (listeningSocket : Z) : Event :=
  EvAccept4 listeningSocket (Z.lor Sys.SOCK_CLOEXEC Sys.SOCK_NONBLOCK).

(** The world right after [tf_accept4] answered [a], [k] being the answers
    still to come. *)
Definition afterAccept (w : World) (a : Answer) (k : list Answer) : World :=
  mkWorld (errnoAfter (errno w) a) (sendBufSize w) (recvBufSize w) k.

(** A fresh process: the shared sizes are not initialised yet.  The kernel
    is about to hand out descriptor 0 (the process runs with its standard
    input closed). *)
Definition acceptsDescriptorZero : World :=
  mkWorld 0 0 0
    [mkAnswer 0 None (OutBytes [x7f; x00; x00; x01]);
     mkAnswer 0 None (OutBytes [x7b; x61; x62; x7d]);
     mkAnswer 0 None (OutInt 4096);
     mkAnswer 0 None (OutInt 8192)].

(** The same process, the kernel handing out descriptor 9. *)
Definition acceptsDescriptorNine : World :=
  mkWorld 0 0 0
    [mkAnswer 9 None (OutBytes [x7f; x00; x00; x01]);
     mkAnswer 0 None (OutBytes [x7b; x61; x62; x7d]);
     mkAnswer 0 None (OutInt 4096);
     mkAnswer (-1) (Some 9) NoOut].

(** Nothing is pending on the listening socket. *)
Definition nothingPending : World :=
  mkWorld 0 0 0 [mkAnswer (-1) (Some Sys.EAGAIN) NoOut].

(** The process ran out of descriptors (EMFILE). *)
Definition outOfDescriptors : World :=
  mkWorld 0 0 0 [mkAnswer (-1) (Some 24) NoOut].

(** An active handle with two queued buffers, no worker attached. *)
Definition idleHandle : TEpollSocket :=
  mkSocket false 0 7 [x30] []
    [createSendBuffer [x41; x42; x43; x44; x45];
     createSendBufferFile [x61; x62] (Some (mkFile [x63; x64; x65])) true
                          (mkLogger 0)]
    (mkRecvBuffer [] []) false.

(** The same handle while a worker holds a reference to it. *)
Definition busyHandle : TEpollSocket :=
  mkSocket false 1 7 [x30] [] (sendBuf idleHandle) (mkRecvBuffer [] []) false.

(** ** Reading *)

(** A successful read as the kernel makes them: a positive count, no more
    than was asked for, and that many bytes stored into the slice. *)
Definition goodRead (sz : Z) (a : Answer) : Prop :=
  0 < ansRet a <= sz /\ ansRet a = size (outBytes a).

(** One turn of the receive loop with a successful read. *)
Definition recv_turn (sz : Z) (rb : RecvBuffer) (a : Answer) : RecvBuffer :=
  seekRecvBuffer (storeRecv (getRecvBuffer rb sz) sz (outBytes a)) (ansRet a).

(** The log line [recv] writes for a captured [err], if any. *)
Definition recvLog (fd err : Z) : list Event :=
  if err =? Sys.EAGAIN then []
  else if (err =? 0) || (err =? Sys.ECONNRESET) then
    [EvLog LDebug "Socket disconnected : sd:%d  errno:%d"
           [AInt fd; AInt err]]
  else
    [EvLog LError "Failed recv : sd:%d  errno:%d" [AInt fd; AInt err]].

(** A handle with three bytes already received. *)
Definition readingHandle : TEpollSocket :=
  mkSocket false 0 7 [x30] [] [] (mkRecvBuffer [x47; x45; x54] []) false.

(** Two reads succeed, then the peer resets the connection. *)
Definition resetAfterTwoReads : World :=
  mkWorld 0 4096 4
    [mkAnswer 2 None (OutBytes [x20; x2f]);
     mkAnswer 3 None (OutBytes [x61; x62; x63]);
     mkAnswer (-1) (Some Sys.ECONNRESET) NoOut;
     mkAnswer 1 None (OutBytes [x7a])].

(** Two reads succeed, then the socket has nothing more for now. *)
Definition drainedAfterTwoReads : World :=
  mkWorld 0 4096 4
    [mkAnswer 2 None (OutBytes [x20; x2f]);
     mkAnswer 3 None (OutBytes [x61; x62; x63]);
     mkAnswer (-1) (Some Sys.EAGAIN) NoOut].

(** ** Writing *)

(** The chunk [getData] hands out. *)
Definition chunk (sz : Z) (b : TSendBuffer) : bytes :=
  firstn (Z.to_nat sz) (unsent b).

(** The head after a write of [len] bytes went through: the cursor and the
    logger's byte count have moved on by [len]. *)
Definition advance (b : TSendBuffer) (len : Z) : TSendBuffer :=
  withLogger (addResponseBytes len) (seekData b len).

(** [b'] is the buffer [b], possibly further along: same bytes, same file,
    a cursor that has not moved back. *)
Definition sameBuffer (b b' : TSendBuffer) : Prop :=
  arrayBuffer b' = arrayBuffer b /\
  bodyFile b' = bodyFile b /\
  fileRemove b' = fileRemove b /\
  (startPos b <= startPos b')%nat.

(** [e] is a write, on descriptor [fd], of a chunk of the payload of
    [head] that starts at or after the cursor of [head]. *)
Definition headChunk (fd sz : Z) (head : TSendBuffer) (e : Event) : Prop :=
  exists n,
    (startPos head <= n)%nat /\
    e = EvSend fd (firstn (Z.to_nat sz) (skipn n (payload head)))
               Sys.MSG_NOSIGNAL.

(** The oracle holds enough answers for a call of [send] to come back: one
    per unsent byte of the head is always enough. *)
Definition sendAnswered (this : TEpollSocket) (w : World) : Prop :=
  match sendBuf this with
  | [] => True
  | head :: _ =>
      deleting this = true \/
      (length (unsent head) <= length (oracle w))%nat
  end.

(** The head was finalized by the call that returned [ret] and left it as
    [head']: it was fully consumed, or a terminal error occurred. *)
Definition finalized (head' : TSendBuffer) (ret : Z) : Prop :=
  atEnd head' = true \/ ret < 0.

Definition sumRet (l : list Answer) : Z := sumZ (map ansRet l).

(** The kernel takes two bytes, then would block. *)
Definition blocksAfterTwoBytes : World :=
  mkWorld 0 2 4096
    [mkAnswer 2 None NoOut; mkAnswer (-1) (Some Sys.EAGAIN) NoOut;
     mkAnswer 2 None NoOut; mkAnswer 1 None NoOut;
     mkAnswer (-1) (Some Sys.EAGAIN) NoOut].

(** The kernel takes two bytes, then reports a broken pipe. *)
Definition pipeBreaksAfterTwoBytes : World :=
  mkWorld 0 2 4096
    [mkAnswer 2 None NoOut; mkAnswer (-1) (Some Sys.EPIPE) NoOut;
     mkAnswer 2 None NoOut].

(** The kernel takes every byte it is given, two at a time. *)
Definition takesEverything : World :=
  mkWorld 0 2 4096
    [mkAnswer 2 None NoOut; mkAnswer 2 None NoOut; mkAnswer 1 None NoOut;
     mkAnswer 2 None NoOut; mkAnswer 2 None NoOut].

(** What finalization does to the outside when it takes place. *)
Definition finalEvents (head' : TSendBuffer) (ret : Z) : list Event :=
  if atEnd head' || (ret <? 0)
  then [EvLoggerWrite (accessLogger head'); EvDeleteBuffer head']
  else [].

(** The queue a call of [send] leaves behind. *)
Definition finalQueue (head' : TSendBuffer) (ret : Z)
    (rest : list TSendBuffer) : list TSendBuffer :=
  if atEnd head' || (ret <? 0) then rest else head' :: rest.

(** The request for a fresh edge, when one is made. *)
Definition rearm (this : TEpollSocket) (err : Z) (queue : list TSendBuffer)
  : list Event :=
  if negb (err =? Sys.EAGAIN) && negb (length queue =? 0)%nat
  then [EvModifyPoll (uuid this) rearmEvents]
  else [].

(** * Vocabulary of the further properties *)

(** [n] calls of [send] in a row, as the reactor makes them on successive
    writable events, whatever each of them returns; the events of all the
    calls, in order. *)
Fixpoint sendTimes (n : nat) (this : TEpollSocket) (w : World)
  : option (TEpollSocket * World * list Event) :=
  match n with
  | O => Some (this, w, [])
  | S n' =>
      match send this w with
      | None => None
      | Some (_, this1, w1, ev1) =>
          match sendTimes n' this1 w1 with
          | None => None
          | Some (this2, w2, ev2) => Some (this2, w2, ev1 ++ ev2)
          end
      end
  end.

(** [q'] is what is left of the queue [q] after buffers left it from the
    front: nothing, or a tail of [q] whose first buffer may be further
    along. *)
Definition laterQueue (q q' : list TSendBuffer) : Prop :=
  q' = [] \/
  exists pre h h' tl,
    q = pre ++ h :: tl /\ q' = h' :: tl /\ sameBuffer h h'.

(** The bytes the kernel took: of each write, as many bytes as the kernel
    answered. *)
Fixpoint accepted (pos : list Answer) (sends : list Event) : bytes :=
  match pos, sends with
  | a :: pos', EvSend _ data _ :: sends' =>
      firstn (Z.to_nat (ansRet a)) data ++ accepted pos' sends'
  | _, _ => []
  end.

(** A write the kernel took part of: a positive count, within the chunk
    size, and [errno] left alone. *)
Definition goodWrite (sz : Z) (a : Answer) : Prop :=
  0 < ansRet a <= sz /\ ansErrno a = None.

(** The two [getsockopt] calls of [initBuffer]. *)
Definition sizeQueries (fd : Z) : list Event :=
  [EvGetsockopt fd Sys.SOL_SOCKET Sys.SO_SNDBUF;
   EvGetsockopt fd Sys.SOL_SOCKET Sys.SO_RCVBUF].

(** A fresh process on which the send-size query succeeds (4096) and the
    receive-size query fails (EBADF). *)
Definition recvQueryFails : World :=
  mkWorld 0 0 0
    [mkAnswer 0 None (OutInt 4096); mkAnswer (-1) (Some 9) NoOut].

(** A process whose sizes are set; the next external call is
    [QUuid::createUuid]. *)
Definition sizesKnown : World :=
  mkWorld 0 4096 8192 [mkAnswer 0 None (OutBytes [x7b; x61; x62; x7d])].

(** The kernel takes two bytes, then fails the write with ECONNRESET. *)
Definition resetAfterTwoBytes : World :=
  mkWorld 0 2 4096
    [mkAnswer 2 None NoOut; mkAnswer (-1) (Some Sys.ECONNRESET) NoOut].

(** The kernel takes the five bytes of the head, whole chunks first. *)
Definition takesFiveBytes : World :=
  mkWorld 0 2 4096
    [mkAnswer 2 None NoOut; mkAnswer 2 None NoOut; mkAnswer 1 None NoOut;
     mkAnswer 2 None NoOut].

(** Two bursts of data, each ended by EAGAIN. *)
Definition twoBursts : World :=
  mkWorld 0 4096 4
    [mkAnswer 2 None (OutBytes [x20; x2f]);
     mkAnswer (-1) (Some Sys.EAGAIN) NoOut;
     mkAnswer 3 None (OutBytes [x61; x62; x63]);
     mkAnswer (-1) (Some Sys.EAGAIN) NoOut].

(** * Properties *)

(** ** Accounting: bufferedBytes *)

Section Accounting.

Lemma qint64_add_l (a b : Z) : qint64 (qint64 a + b) = qint64 (a + b).
Proof.
  unfold qint64.
  assert (E : (a + 2 ^ 63) mod 2 ^ 64 - 2 ^ 63 + b + 2 ^ 63
              = (a + 2 ^ 63) mod 2 ^ 64 + b) by lia.
  rewrite E, Z.add_mod_idemp_l by lia.
  do 2 f_equal. lia.
Qed.

Lemma qint64_small (a : Z) : - 2 ^ 63 <= a < 2 ^ 63 -> qint64 a = a.
Proof.
  intros H. unfold qint64. rewrite Z.mod_small; lia.
Qed.

Lemma bufferedBytes_step_sum (acc : Z) (d : TSendBuffer) :
  bufferedBytes_step (qint64 acc) d = qint64 (acc + storedBytes d).
Proof.
  unfold bufferedBytes_step, storedBytes.
  destruct (bodyFile d) as [f|].
  - rewrite qint64_add_l, <- Z.add_assoc, qint64_add_l. reflexivity.
  - rewrite qint64_add_l. f_equal. lia.
Qed.

Lemma bufferedBytes_fold (q : list TSendBuffer) : forall acc,
  fold_left bufferedBytes_step q (qint64 acc)
  = qint64 (acc + sumZ (map storedBytes q)).
Proof.
  induction q as [|d q IH]; intros acc; simpl.
  - f_equal. lia.
  - rewrite bufferedBytes_step_sum, IH. f_equal. lia.
Qed.

Lemma bufferedBytes_sum (s : TEpollSocket) :
  bufferedBytes s = qint64 (sumZ (map storedBytes (sendBuf s))).
Proof.
  unfold bufferedBytes. change 0 with (qint64 0) at 1.
  rewrite bufferedBytes_fold. reflexivity.
Qed.

(** As long as the sum fits 64 bits (it always does in practice), it is the
    plain sum. *)
Lemma bufferedBytes_exact (s : TEpollSocket) :
  - 2 ^ 63 <= sumZ (map storedBytes (sendBuf s)) < 2 ^ 63 ->
  bufferedBytes s = sumZ (map storedBytes (sendBuf s)).
Proof.
  intros Hfit. rewrite bufferedBytes_sum. apply qint64_small, Hfit.
Qed.

End Accounting.

(** The mid-transmission state is the one [send] leaves when the kernel
    takes two bytes and then would block. *)
Example midTransmission_reached :
  send fiveBytesQueued blocksAfterTwoBytes
  = Some (0, midTransmission,
          mkWorld Sys.EAGAIN 2 4096 (skipn 2 (oracle blocksAfterTwoBytes)),
          [EvSend 7 [x41; x42] Sys.MSG_NOSIGNAL;
           EvSend 7 [x43; x44] Sys.MSG_NOSIGNAL]).
Proof. reflexivity. Qed.

(** C6, as stated, fails: with two of five in-memory bytes sent,
    [bufferedBytes] still answers 5, the remaining unsent length is 3; and
    with two bytes of a file of three sent it answers 3, the size of the
    file, not 1. *)
Lemma bufferedBytes_ignores_cursor :
  (bufferedBytes midTransmission = 5 /\
   sumZ (map remainingLength (sendBuf midTransmission)) = 3 /\
   bufferedBytes midTransmission
   <> sumZ (map remainingLength (sendBuf midTransmission))) /\
  (bufferedBytes midFile = 3 /\
   sumZ (map remainingLength (sendBuf midFile)) = 1 /\
   bufferedBytes midFile <> sumZ (map remainingLength (sendBuf midFile))).
Proof. repeat split; vm_compute; discriminate. Qed.

(** C6, amended: [bufferedBytes] is the sum, over the queued buffers, of the
    size of the in-memory byte array plus, for a file-backed buffer, the
    total size of the file (as a 64-bit sum); the cursors play no part in
    it, so moving every cursor leaves the answer as it was. *)
Theorem bufferedBytes_is_stored_size (this : TEpollSocket) :
  bufferedBytes this = qint64 (sumZ (map storedBytes (sendBuf this))) /\
  forall n : Z,
    bufferedBytes
      (setSendBuf (map (fun d => seekData d n) (sendBuf this)) this)
    = bufferedBytes this.
Proof.
  split; [apply bufferedBytes_sum|].
  intros n. rewrite !bufferedBytes_sum. simpl sendBuf.
  rewrite map_map. reflexivity.
Qed.

(** ** The deleting gate *)

(** C7: once [deleting] is set, [send] returns 0 at once, leaving the
    handle, the queue and the world as they were and calling nothing, and
    the three requests ([sendData] in both forms, [disconnect],
    [switchToWebSocket]) hand nothing to the poller. *)
Theorem deleting_stops_new_work (this : TEpollSocket) (w : World)
    (header data : bytes) (body : option QFile) (autoRemove : bool)
    (lg : TAccessLogger) :
  deleting this = true ->
  send this w = Some (0, this, w, []) /\
  sendDataFile this header body autoRemove lg = [] /\
  sendData this data = [] /\
  disconnect this = [] /\
  switchToWebSocket this header = [].
Proof.
  intros Hdel.
  unfold send, sendDataFile, sendData, disconnect, switchToWebSocket.
  rewrite Hdel. simpl.
  destruct (sendBuf this); repeat split; reflexivity.
Qed.

Lemma deleting_stops_new_work_witness :
  send drainingHandle (quietWorld [mkAnswer 2 None NoOut])
  = Some (0, drainingHandle, quietWorld [mkAnswer 2 None NoOut], []) /\
  sendDataFile drainingHandle [x48] None false (mkLogger 0) = [] /\
  sendData drainingHandle [x41] = [] /\
  disconnect drainingHandle = [] /\
  switchToWebSocket drainingHandle [x48] = [].
Proof.
  apply (@deleting_stops_new_work drainingHandle
           (quietWorld [mkAnswer 2 None NoOut]) [x48] [x41] None false
           (mkLogger 0)).
  reflexivity.
Defined.

(** ** The acceptor *)

Section Acceptor.

Variable listeningSocket : Z.
Variable w : World.
Variables (a : Answer) (k : list Answer).
Hypothesis Hanswer : oracle w = a :: k.

Lemma accept_failed :
  ansRet a < 0 ->
  accept listeningSocket w
  = Some (None, afterAccept w a k,
          acceptCall listeningSocket
          :: (if negb (errnoAfter (errno w) a =? Sys.EAGAIN)
              then [EvLog LWarn "Failed accept.  errno:%d"
                          [AInt (errnoAfter (errno w) a)]]
              else [])).
Proof.
  intros Hneg. unfold accept. rewrite Hanswer.
  apply Z.ltb_lt in Hneg. rewrite Hneg. reflexivity.
Qed.

Lemma accept_created :
  0 <= ansRet a ->
  accept listeningSocket w
  = match create (ansRet a) (outBytes a) (afterAccept w a k) with
    | None => None
    | Some (s, w2, ev) => Some (s, w2, acceptCall listeningSocket :: ev)
    end.
Proof.
  intros Hpos. unfold accept. rewrite Hanswer.
  apply Z.ltb_ge in Hpos. rewrite Hpos. reflexivity.
Qed.

End Acceptor.

Lemma create_nonpositive (d : Z) (address : QHostAddress) (w : World) :
  d <= 0 -> create d address w = Some (None, w, []).
Proof.
  intros Hd. unfold create.
  apply Z.ltb_ge in Hd. rewrite Hd. reflexivity.
Qed.

(** C8, as stated, fails: the accept primitive succeeds and hands out
    descriptor 0, yet [accept] returns no handle (and logs nothing), and
    the shared sizes are left uninitialised. *)
Lemma accept_success_without_handle :
  hd_error (oracle acceptsDescriptorZero)
  = Some (mkAnswer 0 None (OutBytes [x7f; x00; x00; x01])) /\
  accept 3 acceptsDescriptorZero
  = Some (None,
          mkWorld 0 0 0 (tl (oracle acceptsDescriptorZero)),
          [acceptCall 3]).
Proof. split; reflexivity. Qed.

(** C8, amended: [accept] returns no handle and logs nothing when the
    accept primitive fails with EAGAIN; it returns no handle after one
    warning on any other failure; when the primitive succeeds with a
    strictly positive descriptor, it constructs the handle from that
    descriptor and the peer address, moves it to the application thread and
    runs [initBuffer] on the descriptor. *)
Theorem accept_outcomes (listeningSocket : Z) (w : World) (a : Answer)
    (k : list Answer) :
  oracle w = a :: k ->
  (ansRet a < 0 -> errnoAfter (errno w) a = Sys.EAGAIN ->
   accept listeningSocket w
   = Some (None, afterAccept w a k, [acceptCall listeningSocket])) /\
  (ansRet a < 0 -> errnoAfter (errno w) a <> Sys.EAGAIN ->
   accept listeningSocket w
   = Some (None, afterAccept w a k,
           [acceptCall listeningSocket;
            EvLog LWarn "Failed accept.  errno:%d"
                  [AInt (errnoAfter (errno w) a)]])) /\
  (0 < ansRet a ->
   forall (u : Answer) (k1 : list Answer) (w2 : World) (ev2 : list Event),
     k = u :: k1 ->
     initBuffer (ansRet a) (afterAccept w a k1) = Some (w2, ev2) ->
     exists sock,
       accept listeningSocket w
       = Some (Some sock, w2,
               acceptCall listeningSocket
               :: EvNewSocket (ansRet a) (outBytes a)
               :: EvCreateUuid
               :: EvLog LDebug "TEpollSocket  id:%s" [AStr (uuid sock)]
               :: EvMoveToThread (uuid sock) :: ev2) /\
       sd sock = ansRet a /\
       clientAddr sock = outBytes a /\
       deleting sock = false /\
       myWorkerCounter sock = 0 /\
       sendBuf sock = []).
Proof.
  intros Hk. split; [|split].
  - intros Hneg Herr.
    rewrite (accept_failed listeningSocket w Hk Hneg), Herr. reflexivity.
  - intros Hneg Herr.
    rewrite (accept_failed listeningSocket w Hk Hneg).
    apply Z.eqb_neq in Herr. rewrite Herr. reflexivity.
  - intros Hpos u k1 w2 ev2 Hu Hinit.
    rewrite (accept_created listeningSocket _ Hk) by lia.
    unfold create. apply Z.ltb_lt in Hpos. rewrite Hpos.
    unfold construct, afterAccept. simpl oracle. rewrite Hu.
    unfold afterAccept in Hinit. simpl. rewrite Hinit.
    exists (mkSocket false 0 (ansRet a)
                     (mid 1 (size (outBytes u) - 2) (outBytes u))
                     (outBytes a) [] (mkRecvBuffer [] []) false).
    repeat split.
Qed.

Lemma accept_outcomes_witness :
  accept 3 nothingPending
  = Some (None, mkWorld Sys.EAGAIN 0 0 [], [acceptCall 3]) /\
  accept 3 outOfDescriptors
  = Some (None, mkWorld 24 0 0 [],
          [acceptCall 3; EvLog LWarn "Failed accept.  errno:%d" [AInt 24]]) /\
  exists sock,
    accept 3 acceptsDescriptorNine
    = Some (Some sock, mkWorld 9 4096 BUF_SIZE [],
            [acceptCall 3;
             EvNewSocket 9 [x7f; x00; x00; x01];
             EvCreateUuid;
             EvLog LDebug "TEpollSocket  id:%s" [AStr (uuid sock)];
             EvMoveToThread (uuid sock);
             EvGetsockopt 9 Sys.SOL_SOCKET Sys.SO_SNDBUF;
             EvGetsockopt 9 Sys.SOL_SOCKET Sys.SO_RCVBUF]) /\
    sd sock = 9 /\
    clientAddr sock = [x7f; x00; x00; x01] /\
    deleting sock = false /\
    myWorkerCounter sock = 0 /\
    sendBuf sock = [].
Proof.
  split; [|split].
  - apply (proj1 (@accept_outcomes 3 nothingPending _ _ eq_refl));
      [vm_compute | ]; reflexivity.
  - apply (proj1 (proj2 (@accept_outcomes 3 outOfDescriptors _ _ eq_refl)));
      [reflexivity | vm_compute; congruence].
  - apply (proj2 (proj2 (@accept_outcomes 3 acceptsDescriptorNine _ _
                           eq_refl))
             eq_refl _ _ _ _ eq_refl).
    reflexivity.
Defined.

(** C9: [create] on a descriptor that is not strictly positive, 0
    included, returns no handle and does nothing else: no object is
    constructed, [initBuffer] is not run, the world is as it was.  Hence an
    accept that yields descriptor 0 produces no handle either: [accept]
    only made its one call. *)
Theorem create_needs_positive_descriptor (d : Z) (address : QHostAddress)
    (w w0 : World) (listeningSocket : Z) (a : Answer) (k : list Answer) :
  d <= 0 ->
  oracle w0 = a :: k ->
  ansRet a = 0 ->
  create d address w = Some (None, w, []) /\
  accept listeningSocket w0
  = Some (None, afterAccept w0 a k, [acceptCall listeningSocket]).
Proof.
  intros Hd Hk Hzero. split.
  - apply create_nonpositive, Hd.
  - rewrite (accept_created listeningSocket _ Hk) by lia.
    rewrite create_nonpositive by lia. reflexivity.
Qed.

Lemma create_needs_positive_descriptor_witness :
  create 0 [x7f; x00; x00; x01] acceptsDescriptorNine
  = Some (None, acceptsDescriptorNine, []) /\
  accept 3 acceptsDescriptorZero
  = Some (None,
          afterAccept acceptsDescriptorZero
            (mkAnswer 0 None (OutBytes [x7f; x00; x00; x01]))
            (tl (oracle acceptsDescriptorZero)),
          [acceptCall 3]).
Proof.
  apply (@create_needs_positive_descriptor 0 [x7f; x00; x00; x01]
           acceptsDescriptorNine acceptsDescriptorZero 3 _ _);
    [lia | reflexivity | reflexivity].
Defined.

(** ** Deferred destruction *)

Lemma destructor_events (this : TEpollSocket) :
  snd (destructor this)
  = EvLog LDebug "TEpollSocket::destructor" []
    :: (if 0 <? sd this then [EvClose (sd this)] else [])
    ++ map EvDeleteBuffer (sendBuf this).
Proof.
  unfold destructor, close. destruct (0 <? sd this); reflexivity.
Qed.

Lemma destructor_state (this : TEpollSocket) :
  fst (destructor this)
  = setSendBuf [] (if 0 <? sd this then setSd 0 this else this).
Proof.
  unfold destructor, close. destruct (0 <? sd this); reflexivity.
Qed.

Lemma no_flush_in_deletes (q : list TSendBuffer) (lg : TAccessLogger) :
  ~ In (EvLoggerWrite lg) (map EvDeleteBuffer q).
Proof.
  intros Hin. apply in_map_iff in Hin.
  destruct Hin as [b [Hb _]]. discriminate Hb.
Qed.

(** C2, as stated, fails: on a handle with no worker attached, an open
    descriptor and two queued buffers, [deleteLater] returns with the
    descriptor still open and both buffers still queued; it called no
    [tf_close] and deleted nothing, its one effect outside the handle is
    its debug line. *)
Lemma deleteLater_destroys_nothing_itself :
  myWorkerCounter idleHandle = 0 /\
  snd (deleteLater idleHandle)
  = [EvLog LDebug "TEpollSocket::deleteLater  countWorker:%d" [AInt 0]] /\
  sd (fst (deleteLater idleHandle)) = 7 /\
  sendBuf (fst (deleteLater idleHandle)) = sendBuf idleHandle /\
  length (sendBuf (fst (deleteLater idleHandle))) = 2%nat.
Proof. repeat split. Qed.

(** C2, amended: [deleteLater] sets [deleting], and a second call changes
    nothing more.  The call itself closes no descriptor and deletes no
    buffer: descriptor and queue are as they were when it returns, and its
    only trace is a debug line.  With no worker attached it posts the
    handle for deletion through [QObject::deleteLater]; it is that
    deletion, when Qt carries it out, which closes the descriptor (if one
    is open) and deletes every queued buffer, in queue order, without
    writing any access log.  With a worker attached nothing is posted:
    nothing but the flag changes. *)
Theorem deleteLater_marks_and_posts (this : TEpollSocket) :
  let this' := fst (deleteLater this) in
  deleting this' = true /\
  fst (deleteLater this') = this' /\
  snd (deleteLater this)
  = [EvLog LDebug "TEpollSocket::deleteLater  countWorker:%d"
           [AInt (myWorkerCounter this)]] /\
  sd this' = sd this /\
  sendBuf this' = sendBuf this /\
  this' = setDeletePosted (deletePosted this') (setDeleting true this) /\
  (myWorkerCounter this = 0 ->
   deletePosted this' = true /\
   exists gone ev,
     deferredDelete this' = Some (gone, ev) /\
     ev = EvLog LDebug "TEpollSocket::destructor" []
          :: (if 0 <? sd this then [EvClose (sd this)] else [])
          ++ map EvDeleteBuffer (sendBuf this) /\
     sd gone <= 0 /\
     sendBuf gone = [] /\
     forall lg, ~ In (EvLoggerWrite lg) ev) /\
  (myWorkerCounter this <> 0 ->
   this' = setDeleting true this /\
   deletePosted this' = deletePosted this).
Proof.
  destruct this as [del cnt fd id addr q rb posted].
  unfold deleteLater, QObject_deleteLater, setDeletePosted, setDeleting.
  simpl.
  destruct (cnt =? 0) eqn:Hcnt; simpl; rewrite ?Hcnt; simpl.
  - do 6 (split; [reflexivity|]). split.
    + intros _. split; [reflexivity|].
      unfold deferredDelete. simpl.
      eexists. eexists.
      split; [rewrite (surjective_pairing (destructor _)); reflexivity|].
      rewrite destructor_events, destructor_state. simpl.
      split; [reflexivity|]. split; [|split].
      * destruct (0 <? fd) eqn:Hfd; simpl; [lia|].
        apply Z.ltb_ge in Hfd. exact Hfd.
      * reflexivity.
      * intros lg [Hin|Hin]; [discriminate Hin|].
        apply in_app_or in Hin. destruct Hin as [Hin|Hin].
        -- destruct (0 <? fd); simpl in Hin;
             [destruct Hin as [Hin|[]]; discriminate Hin | contradiction].
        -- exact (no_flush_in_deletes _ _ Hin).
    + intros Hne. apply Z.eqb_eq in Hcnt. contradiction.
  - do 6 (split; [reflexivity|]). split.
    + intros Hz. apply Z.eqb_neq in Hcnt. contradiction.
    + intros _. split; reflexivity.
Qed.

Lemma deleteLater_marks_and_posts_witness :
  (deletePosted (fst (deleteLater idleHandle)) = true /\
   exists gone ev,
     deferredDelete (fst (deleteLater idleHandle)) = Some (gone, ev) /\
     ev = EvLog LDebug "TEpollSocket::destructor" []
          :: (if 0 <? sd idleHandle then [EvClose (sd idleHandle)] else [])
          ++ map EvDeleteBuffer (sendBuf idleHandle) /\
     sd gone <= 0 /\
     sendBuf gone = [] /\
     forall lg, ~ In (EvLoggerWrite lg) ev) /\
  (fst (deleteLater busyHandle) = setDeleting true busyHandle /\
   deletePosted (fst (deleteLater busyHandle)) = deletePosted busyHandle).
Proof.
  split.
  - apply (proj1 (proj2 (proj2 (proj2 (proj2 (proj2 (proj2
             (deleteLater_marks_and_posts idleHandle)))))))).
    reflexivity.
  - apply (proj2 (proj2 (proj2 (proj2 (proj2 (proj2 (proj2
             (deleteLater_marks_and_posts busyHandle)))))))).
    vm_compute. discriminate.
Defined.

(** ** Receiving *)

Section Receive.

Variables fd sz : Z.

Lemma recv_turn_appends (rb : RecvBuffer) (a : Answer) :
  exists appended, rbData (recv_turn sz rb a) = rbData rb ++ appended.
Proof. eexists. reflexivity. Qed.

Lemma recv_turn_good (rb : RecvBuffer) (a : Answer) :
  goodRead sz a ->
  rbData (recv_turn sz rb a) = rbData rb ++ outBytes a.
Proof.
  intros [[Hpos Hle] Hlen]. unfold recv_turn, size in *. simpl.
  f_equal.
  rewrite (firstn_all2 (n := Z.to_nat sz)) by lia.
  rewrite Hlen, Nat2Z.id.
  rewrite firstn_app, firstn_all, Nat.sub_diag. simpl.
  apply app_nil_r.
Qed.

(** The loop keeps turning as long as the reads succeed, and stops at the
    first one that does not. *)
Lemma recv_loop_runs (pos : list Answer) (a : Answer) (k : list Answer) :
  Forall (fun p => 0 < ansRet p) pos ->
  ansRet a <= 0 ->
  forall rb,
    recv_loop fd sz (pos ++ a :: k) rb
    = Some (errnoAfter 0 a,
            storeRecv (getRecvBuffer (fold_left (recv_turn sz) pos rb) sz)
                      sz (outBytes a),
            k,
            repeat (EvRecv fd sz 0) (S (length pos))).
Proof.
  intros Hpos Hlast. induction Hpos as [|p pos Hp _ IH]; intros rb.
  - simpl. apply Z.leb_le in Hlast. rewrite Hlast. reflexivity.
  - simpl app. simpl recv_loop.
    assert (Hgo : (ansRet p <=? 0) = false) by (apply Z.leb_gt; exact Hp).
    rewrite Hgo. fold (recv_turn sz rb p). rewrite IH. reflexivity.
Qed.

Lemma recv_loop_waits (k : list Answer) :
  Forall (fun p => 0 < ansRet p) k ->
  forall rb, recv_loop fd sz k rb = None.
Proof.
  intros Hpos. induction Hpos as [|p k Hp _ IH]; intros rb.
  - reflexivity.
  - simpl.
    assert (Hgo : (ansRet p <=? 0) = false) by (apply Z.leb_gt; exact Hp).
    rewrite Hgo, IH. reflexivity.
Qed.

Lemma recv_loop_appends (k : list Answer) :
  forall rb err rb' k' ev,
    recv_loop fd sz k rb = Some (err, rb', k', ev) ->
    exists appended, rbData rb' = rbData rb ++ appended.
Proof.
  induction k as [|a k IH]; intros rb err rb' k' ev Hloop.
  - discriminate Hloop.
  - simpl in Hloop. destruct (ansRet a <=? 0).
    + injection Hloop as _ Hrb _ _. subst rb'.
      exists []. simpl. symmetry. apply app_nil_r.
    + fold (recv_turn sz rb a) in Hloop.
      destruct (recv_loop fd sz k (recv_turn sz rb a))
        as [[[[err1 rb1] k1] ev1]|] eqn:Hrec; [|discriminate Hloop].
      injection Hloop as _ Hrb _ _. subst rb1.
      destruct (IH _ _ _ _ _ Hrec) as [app1 Happ1].
      destruct (recv_turn_appends rb a) as [app0 Happ0].
      exists (app0 ++ app1). rewrite Happ1, Happ0. symmetry. apply app_assoc.
Qed.

Lemma recv_turns_good (pos : list Answer) :
  Forall (goodRead sz) pos ->
  forall rb,
    rbData (fold_left (recv_turn sz) pos rb)
    = rbData rb ++ concat (map outBytes pos).
Proof.
  intros Hgood. induction Hgood as [|p pos Hp _ IH]; intros rb; simpl.
  - symmetry. apply app_nil_r.
  - rewrite IH, (recv_turn_good rb Hp). symmetry. apply app_assoc.
Qed.

Lemma goodRead_positive (pos : list Answer) :
  Forall (goodRead sz) pos -> Forall (fun p => 0 < ansRet p) pos.
Proof.
  apply Forall_impl. intros p [[Hp _] _]. exact Hp.
Qed.

End Receive.

(** [recv] in terms of its loop. *)
Lemma recv_unfold (this : TEpollSocket) (w : World) (err : Z)
    (rb : RecvBuffer) (k : list Answer) (ev : list Event) :
  recv_loop (sd this) (recvBufSize w) (oracle w) (recvBuf this)
  = Some (err, rb, k, ev) ->
  recv this w
  = Some (if err =? Sys.EAGAIN then 0 else -1,
          setRecvBuf rb this,
          mkWorld err (sendBufSize w) (recvBufSize w) k,
          ev ++ recvLog (sd this) err).
Proof.
  intros Hloop. unfold recv, recvLog. rewrite Hloop.
  destruct (err =? Sys.EAGAIN).
  - rewrite app_nil_r. reflexivity.
  - destruct ((err =? 0) || (err =? Sys.ECONNRESET)); reflexivity.
Qed.

(** Two reads, then EAGAIN: five bytes more in the buffer, success. *)
Example recv_until_would_block :
  recv readingHandle drainedAfterTwoReads
  = Some (0,
          setRecvBuf
            (mkRecvBuffer [x47; x45; x54; x20; x2f; x61; x62; x63]
                          [x00; x00; x00; x00])
            readingHandle,
          mkWorld Sys.EAGAIN 4096 4 [],
          repeat (EvRecv 7 4 0) 3).
Proof. reflexivity. Qed.

(** C3: [recv] keeps reading while the reads succeed, appending what each
    one delivered, and stops at the first read that returns a non-positive
    length (with nothing but successful reads in sight it has not
    returned); the error code captured at that read then decides: EAGAIN
    gives 0 and no log line, the handle untouched but for the bytes
    received; 0 (a zero-length read leaves the cleared errno at 0) or
    ECONNRESET gives -1 and one debug line; any other code gives -1 and one
    error line. *)
Theorem recv_drains_then_classifies (this : TEpollSocket) (w : World)
    (pos : list Answer) (a : Answer) (k : list Answer) :
  oracle w = pos ++ a :: k ->
  Forall (goodRead (recvBufSize w)) pos ->
  ansRet a <= 0 ->
  let err := errnoAfter 0 a in
  let calls := repeat (EvRecv (sd this) (recvBufSize w) 0) (S (length pos)) in
  (forall w0, Forall (fun p => 0 < ansRet p) (oracle w0) ->
              recv this w0 = None) /\
  exists ret rb logs,
    recv this w
    = Some (ret, setRecvBuf rb this,
            mkWorld err (sendBufSize w) (recvBufSize w) k,
            calls ++ logs) /\
    rbData rb = rbData (recvBuf this) ++ concat (map outBytes pos) /\
    (err = Sys.EAGAIN -> ret = 0 /\ logs = []) /\
    (err = 0 \/ err = Sys.ECONNRESET ->
     ret = -1 /\
     logs = [EvLog LDebug "Socket disconnected : sd:%d  errno:%d"
                   [AInt (sd this); AInt err]]) /\
    (ansRet a = 0 -> ansErrno a = None ->
     ret = -1 /\
     logs = [EvLog LDebug "Socket disconnected : sd:%d  errno:%d"
                   [AInt (sd this); AInt 0]]) /\
    (err <> Sys.EAGAIN -> err <> 0 -> err <> Sys.ECONNRESET ->
     ret = -1 /\
     logs = [EvLog LError "Failed recv : sd:%d  errno:%d"
                   [AInt (sd this); AInt err]]).
Proof.
  intros Hk Hgood Hlast err calls. split.
  - intros w0 Hpos. unfold recv.
    rewrite (@recv_loop_waits _ _ _ Hpos). reflexivity.
  - pose proof (@recv_loop_runs (sd this) (recvBufSize w) pos a k
                  (goodRead_positive Hgood) Hlast (recvBuf this)) as Hloop.
    rewrite <- Hk in Hloop.
    exists (if err =? Sys.EAGAIN then 0 else -1).
    eexists. exists (recvLog (sd this) err).
    split; [exact (recv_unfold this w Hloop)|].
    split; [simpl; apply recv_turns_good, Hgood|].
    unfold recvLog.
    split; [|split; [|split]].
    + intros He. rewrite He. split; reflexivity.
    + intros [He|He]; rewrite He; split; reflexivity.
    + intros _ Hnone. subst err. unfold errnoAfter. rewrite Hnone.
      split; reflexivity.
    + intros H1 H2 H3.
      apply Z.eqb_neq in H1, H2, H3. rewrite H1, H2, H3.
      split; reflexivity.
Qed.

Lemma recv_drains_then_classifies_witness :
  let this := readingHandle in
  let w := resetAfterTwoReads in
  let err := Sys.ECONNRESET in
  let calls := repeat (EvRecv 7 4 0) 3 in
  (forall w0, Forall (fun p => 0 < ansRet p) (oracle w0) ->
              recv this w0 = None) /\
  exists ret rb logs,
    recv this w
    = Some (ret, setRecvBuf rb this,
            mkWorld err 4096 4 [mkAnswer 1 None (OutBytes [x7a])],
            calls ++ logs) /\
    rbData rb = [x47; x45; x54] ++ [x20; x2f; x61; x62; x63] /\
    (err = Sys.EAGAIN -> ret = 0 /\ logs = []) /\
    (err = 0 \/ err = Sys.ECONNRESET ->
     ret = -1 /\
     logs = [EvLog LDebug "Socket disconnected : sd:%d  errno:%d"
                   [AInt 7; AInt err]]) /\
    (-1 = 0 -> Some Sys.ECONNRESET = None ->
     ret = -1 /\
     logs = [EvLog LDebug "Socket disconnected : sd:%d  errno:%d"
                   [AInt 7; AInt 0]]) /\
    (err <> Sys.EAGAIN -> err <> 0 -> err <> Sys.ECONNRESET ->
     ret = -1 /\
     logs = [EvLog LError "Failed recv : sd:%d  errno:%d"
                   [AInt 7; AInt err]]).
Proof.
  apply (@recv_drains_then_classifies readingHandle resetAfterTwoReads
           [mkAnswer 2 None (OutBytes [x20; x2f]);
            mkAnswer 3 None (OutBytes [x61; x62; x63])]
           (mkAnswer (-1) (Some Sys.ECONNRESET) NoOut)
           [mkAnswer 1 None (OutBytes [x7a])]).
  - reflexivity.
  - repeat constructor; simpl; lia.
  - simpl. lia.
Defined.

(** C10: a call of [recv] only appends to the receive buffer and touches
    nothing else of the handle: what the buffer held before the call is
    still there, in front; and what the successful reads of the call
    delivered stays appended whatever the call returns, -1 included. *)
Theorem recv_only_appends (this : TEpollSocket) (w : World) (ret : Z)
    (this' : TEpollSocket) (w' : World) (ev : list Event) :
  recv this w = Some (ret, this', w', ev) ->
  (exists appended,
     rbData (recvBuf this') = rbData (recvBuf this) ++ appended) /\
  this' = setRecvBuf (recvBuf this') this /\
  (forall pos a k,
     oracle w = pos ++ a :: k ->
     Forall (goodRead (recvBufSize w)) pos ->
     ansRet a <= 0 ->
     rbData (recvBuf this')
     = rbData (recvBuf this) ++ concat (map outBytes pos)).
Proof.
  intros Hrecv.
  destruct (recv_loop (sd this) (recvBufSize w) (oracle w) (recvBuf this))
    as [[[[err rb] k0] ev0]|] eqn:Hloop.
  - rewrite (recv_unfold this w Hloop) in Hrecv.
    injection Hrecv as _ Hthis _ _. subst this'. simpl.
    split; [exact (@recv_loop_appends _ _ _ _ _ _ _ _ Hloop)|].
    split; [reflexivity|].
    intros pos a k Hk Hgood Hlast.
    rewrite Hk, (@recv_loop_runs _ _ pos a k (goodRead_positive Hgood) Hlast)
      in Hloop.
    injection Hloop as _ Hrb _ _. subst rb. simpl.
    apply recv_turns_good, Hgood.
  - unfold recv in Hrecv. rewrite Hloop in Hrecv. discriminate Hrecv.
Qed.

Lemma recv_only_appends_witness :
  (exists appended,
     [x47; x45; x54; x20; x2f; x61; x62; x63]
     = rbData (recvBuf readingHandle) ++ appended) /\
  setRecvBuf (mkRecvBuffer [x47; x45; x54; x20; x2f; x61; x62; x63]
                           [x00; x00; x00; x00])
             readingHandle
  = setRecvBuf (mkRecvBuffer [x47; x45; x54; x20; x2f; x61; x62; x63]
                             [x00; x00; x00; x00])
               readingHandle /\
  (forall pos a k,
     oracle resetAfterTwoReads = pos ++ a :: k ->
     Forall (goodRead 4) pos ->
     ansRet a <= 0 ->
     [x47; x45; x54; x20; x2f; x61; x62; x63]
     = rbData (recvBuf readingHandle) ++ concat (map outBytes pos)).
Proof.
  apply (@recv_only_appends readingHandle resetAfterTwoReads (-1)
           (setRecvBuf (mkRecvBuffer [x47; x45; x54; x20; x2f; x61; x62; x63]
                                     [x00; x00; x00; x00])
                       readingHandle)
           (mkWorld Sys.ECONNRESET 4096 4 [mkAnswer 1 None (OutBytes [x7a])])
           (repeat (EvRecv 7 4 0) 3
            ++ [EvLog LDebug "Socket disconnected : sd:%d  errno:%d"
                      [AInt 7; AInt Sys.ECONNRESET]])).
  reflexivity.
Defined.

(** ** Sending *)

Section SendLoop.

Variables fd sz : Z.

Lemma getData_chunk (buf : TSendBuffer) :
  getData buf sz = (chunk sz buf, size (chunk sz buf)).
Proof. reflexivity. Qed.

(** The three ways through one turn of the loop. *)
Lemma send_loop_done (e err : Z) (buf : TSendBuffer) (k : list Answer) :
  size (chunk sz buf) = 0 ->
  send_loop fd sz e err buf k = Some (mkSendLoop e err 0 buf k []).
Proof.
  intros Hz. destruct k; simpl; fold (chunk sz buf); rewrite Hz;
    reflexivity.
Qed.

Lemma send_loop_stuck (e err : Z) (buf : TSendBuffer) :
  size (chunk sz buf) <> 0 ->
  send_loop fd sz e err buf [] = None.
Proof.
  intros Hnz. simpl. fold (chunk sz buf).
  apply Z.eqb_neq in Hnz. rewrite Hnz. reflexivity.
Qed.

Lemma send_loop_failed (e err : Z) (buf : TSendBuffer) (a : Answer)
    (k : list Answer) :
  size (chunk sz buf) <> 0 ->
  ansRet a <= 0 ->
  send_loop fd sz e err buf (a :: k)
  = Some (mkSendLoop (errnoAfter 0 a) (errnoAfter 0 a) (ansRet a) buf k
                     [EvSend fd (chunk sz buf) Sys.MSG_NOSIGNAL]).
Proof.
  intros Hnz Hle. simpl. fold (chunk sz buf).
  apply Z.eqb_neq in Hnz. rewrite Hnz.
  apply Z.leb_le in Hle. rewrite Hle. reflexivity.
Qed.

Lemma send_loop_sent (e err : Z) (buf : TSendBuffer) (a : Answer)
    (k : list Answer) :
  size (chunk sz buf) <> 0 ->
  0 < ansRet a ->
  send_loop fd sz e err buf (a :: k)
  = match send_loop fd sz (errnoAfter 0 a) (errnoAfter 0 a)
                    (advance buf (ansRet a)) k with
    | Some r =>
        Some (mkSendLoop (slErrno r) (slErr r) (slLen r) (slBuf r)
                (slOracle r)
                (EvSend fd (chunk sz buf) Sys.MSG_NOSIGNAL :: slEvents r))
    | None => None
    end.
Proof.
  intros Hnz Hpos. simpl. fold (chunk sz buf).
  apply Z.eqb_neq in Hnz. rewrite Hnz.
  apply Z.leb_gt in Hpos. rewrite Hpos. reflexivity.
Qed.

Lemma sameBuffer_refl (b : TSendBuffer) : sameBuffer b b.
Proof. repeat split. apply Nat.le_refl. Qed.

Lemma sameBuffer_trans (b1 b2 b3 : TSendBuffer) :
  sameBuffer b1 b2 -> sameBuffer b2 b3 -> sameBuffer b1 b3.
Proof.
  intros (Ha & Hf & Hr & Hp) (Ha' & Hf' & Hr' & Hp').
  repeat split; try congruence. lia.
Qed.

Lemma sameBuffer_advance (b : TSendBuffer) (len : Z) :
  sameBuffer b (advance b len).
Proof. repeat split. simpl. lia. Qed.

Lemma sameBuffer_withLogger (f : TAccessLogger -> TAccessLogger)
    (b : TSendBuffer) :
  sameBuffer b (withLogger f b).
Proof. repeat split. simpl. lia. Qed.

Lemma sameBuffer_payload (b b' : TSendBuffer) :
  sameBuffer b b' -> payload b' = payload b.
Proof.
  intros (Ha & Hf & _ & _). unfold payload, bodyBytes.
  rewrite Ha, Hf. reflexivity.
Qed.

Lemma headChunk_later (b b' : TSendBuffer) (e : Event) :
  sameBuffer b b' -> headChunk fd sz b' e -> headChunk fd sz b e.
Proof.
  intros Hsame (n & Hn & He).
  exists n. rewrite <- (@sameBuffer_payload _ _ Hsame).
  destruct Hsame as (_ & _ & _ & Hp). split; [lia | exact He].
Qed.

Lemma headChunk_now (b : TSendBuffer) :
  headChunk fd sz b (EvSend fd (chunk sz b) Sys.MSG_NOSIGNAL).
Proof. exists (startPos b). split; [apply Nat.le_refl | reflexivity]. Qed.

Lemma chunk_empty_unsent (b : TSendBuffer) :
  0 < sz -> size (chunk sz b) = 0 -> unsent b = [].
Proof.
  intros Hsz Hz. unfold size, chunk in Hz.
  rewrite length_firstn in Hz.
  destruct (unsent b) as [|x l]; [reflexivity|].
  simpl in Hz. lia.
Qed.

Lemma chunk_nonempty (b : TSendBuffer) :
  size (chunk sz b) <> 0 -> 0 < sz /\ unsent b <> [].
Proof.
  intros Hnz. unfold size, chunk in Hnz. split.
  - destruct (Z.to_nat sz) eqn:Hsz; [|lia].
    rewrite firstn_0 in Hnz. contradiction.
  - intros Hnil. rewrite Hnil, firstn_nil in Hnz. contradiction.
Qed.

Lemma unsent_advance (b : TSendBuffer) (len : Z) :
  length (unsent (advance b len))
  = (length (unsent b) - Z.to_nat len)%nat.
Proof.
  unfold unsent. rewrite !length_skipn.
  rewrite (sameBuffer_payload (sameBuffer_advance b len)).
  simpl. lia.
Qed.

(** Whatever the kernel answers, the loop handles one buffer only: what
    it leaves is the buffer it was given, further along, and every write
    it made carried a chunk of that buffer. *)
Lemma send_loop_inv (k : list Answer) :
  forall e err buf r,
    send_loop fd sz e err buf k = Some r ->
    sameBuffer buf (slBuf r) /\ Forall (headChunk fd sz buf) (slEvents r).
Proof.
  induction k as [|a k IH]; intros e err buf r Hloop.
  - destruct (Z.eq_dec (size (chunk sz buf)) 0) as [Hz|Hnz].
    + rewrite (@send_loop_done e err buf [] Hz) in Hloop.
      injection Hloop as <-. split; [apply sameBuffer_refl | constructor].
    + rewrite (@send_loop_stuck e err buf Hnz) in Hloop. discriminate.
  - destruct (Z.eq_dec (size (chunk sz buf)) 0) as [Hz|Hnz].
    + rewrite (@send_loop_done e err buf (a :: k) Hz) in Hloop.
      injection Hloop as <-. split; [apply sameBuffer_refl | constructor].
    + destruct (Z_le_gt_dec (ansRet a) 0) as [Hle|Hgt].
      * rewrite (@send_loop_failed e err buf a k Hnz Hle) in Hloop.
        injection Hloop as <-. split; [apply sameBuffer_refl|].
        constructor; [apply headChunk_now | constructor].
      * rewrite (@send_loop_sent e err buf a k Hnz) in Hloop by lia.
        destruct (send_loop fd sz (errnoAfter 0 a) (errnoAfter 0 a)
                            (advance buf (ansRet a)) k)
          as [r0|] eqn:Hrec; [|discriminate].
        injection Hloop as <-. simpl.
        destruct (IH _ _ _ _ Hrec) as [Hsame Hev].
        pose proof (sameBuffer_advance buf (ansRet a)) as Hadv.
        split; [exact (@sameBuffer_trans _ _ _ Hadv Hsame)|].
        constructor; [apply headChunk_now|].
        eapply Forall_impl; [|exact Hev].
        intros ev. apply headChunk_later, Hadv.
Qed.

(** The loop comes back once the oracle holds one answer per unsent
    byte. *)
Lemma send_loop_returns (k : list Answer) :
  forall e err buf,
    (length (unsent buf) <= length k)%nat ->
    exists r, send_loop fd sz e err buf k = Some r.
Proof.
  induction k as [|a k IH]; intros e err buf Hlen.
  - eexists. apply send_loop_done.
    destruct (unsent buf) eqn:Hu; [|simpl in Hlen; lia].
    unfold chunk. rewrite Hu, firstn_nil. reflexivity.
  - destruct (Z.eq_dec (size (chunk sz buf)) 0) as [Hz|Hnz].
    + eexists. apply send_loop_done, Hz.
    + destruct (Z_le_gt_dec (ansRet a) 0) as [Hle|Hgt].
      * eexists. apply send_loop_failed; assumption.
      * rewrite (@send_loop_sent e err buf a k Hnz) by lia.
        destruct (IH (errnoAfter 0 a) (errnoAfter 0 a)
                     (advance buf (ansRet a))) as [r0 Hr0].
        -- rewrite unsent_advance.
           destruct (@chunk_nonempty buf Hnz) as [_ Hne].
           destruct (unsent buf); [contradiction|].
           simpl length in *. lia.
        -- rewrite Hr0. eexists. reflexivity.
Qed.

End SendLoop.

Section SendCall.

Variable this : TEpollSocket.
Variable w : World.

Lemma send_classify_cases (r : SendLoop) :
  exists ret head' evLog,
    send_classify (sd this) r = (ret, head', evLog) /\
    (ret = 0 \/ ret = -1) /\
    (ret < 0 <-> slErr r <> 0 /\ slErr r <> Sys.EAGAIN) /\
    (ret = 0 -> head' = slBuf r) /\
    (ret < 0 -> head' = withLogger (setResponseBytes (-1)) (slBuf r)) /\
    sameBuffer (slBuf r) head' /\
    (forall e, In e evLog -> exists lv fmt args, e = EvLog lv fmt args) /\
    (slErr r = Sys.EPIPE ->
     evLog = [EvLog LDebug "Socket disconnected : sd:%d  errno:%d"
                    [AInt (sd this); AInt (slErr r)]]).
Proof.
  unfold send_classify.
  destruct (slErr r =? 0) eqn:H0; [|destruct (slErr r =? Sys.EAGAIN) eqn:H1;
    [|destruct (slErr r =? Sys.EPIPE) eqn:H2]]; simpl; rewrite ?H1, ?H2;
    simpl.
  - apply Z.eqb_eq in H0.
    exists 0, (slBuf r), []. split; [reflexivity|].
    split; [left; reflexivity|]. split; [split; [lia | tauto]|].
    split; [reflexivity|]. split; [lia|].
    split; [apply sameBuffer_refl|]. split; [contradiction|].
    intros He. rewrite H0 in He. discriminate He.
  - apply Z.eqb_eq in H1.
    exists 0, (slBuf r), []. split; [reflexivity|].
    split; [left; reflexivity|]. split; [split; [lia | tauto]|].
    split; [reflexivity|]. split; [lia|].
    split; [apply sameBuffer_refl|]. split; [contradiction|].
    intros He. rewrite H1 in He. discriminate He.
  - apply Z.eqb_neq in H0, H1.
    eexists (-1), _, _. split; [reflexivity|].
    split; [right; reflexivity|]. split; [split; [tauto | lia]|].
    split; [lia|]. split; [reflexivity|].
    split; [apply sameBuffer_withLogger|]. split.
    + intros e [<-|[]]. eexists _, _, _. reflexivity.
    + reflexivity.
  - apply Z.eqb_neq in H0, H1, H2.
    eexists (-1), _, _. split; [reflexivity|].
    split; [right; reflexivity|]. split; [split; [tauto | lia]|].
    split; [lia|]. split; [reflexivity|].
    split; [apply sameBuffer_withLogger|]. split.
    + intros e [<-|[]]. eexists _, _, _. reflexivity.
    + contradiction.
Qed.

Lemma send_finish_classified (rest : list TSendBuffer) (r : SendLoop)
    (ret : Z) (head' : TSendBuffer) (evLog : list Event) :
  send_classify (sd this) r = (ret, head', evLog) ->
  send_finish this w rest r
  = (ret, setSendBuf (finalQueue head' ret rest) this,
     mkWorld (slErrno r) (sendBufSize w) (recvBufSize w) (slOracle r),
     slEvents r ++ evLog ++ finalEvents head' ret
     ++ rearm this (slErr r) (finalQueue head' ret rest)).
Proof.
  intros Hc. unfold send_finish, finalQueue, finalEvents, rearm.
  rewrite Hc. destruct (atEnd head' || (ret <? 0)); reflexivity.
Qed.

Lemma send_unfold (head : TSendBuffer) (rest : list TSendBuffer)
    (r : SendLoop) :
  sendBuf this = head :: rest ->
  deleting this = false ->
  send_loop (sd this) (sendBufSize w) (errno w) 0 head (oracle w) = Some r ->
  send this w = Some (send_finish this w rest r) /\
  send_err this w = Some (slErr r).
Proof.
  intros Hq Hdel Hloop. unfold send, send_err.
  rewrite Hq, Hdel, Hloop. split; reflexivity.
Qed.

Lemma finalized_dec (head' : TSendBuffer) (ret : Z) :
  (atEnd head' || (ret <? 0) = true <-> finalized head' ret).
Proof.
  unfold finalized. rewrite orb_true_iff, Z.ltb_lt. reflexivity.
Qed.

End SendCall.

Lemma in_send_events (l1 l2 l3 l4 : list Event) (e : Event) :
  In e (l1 ++ l2 ++ l3 ++ l4) <-> In e l1 \/ In e l2 \/ In e l3 \/ In e l4.
Proof. rewrite !in_app_iff. reflexivity. Qed.

Lemma headChunk_is_send (fd sz : Z) (head : TSendBuffer) (e : Event) :
  headChunk fd sz head e -> exists data fl, e = EvSend fd data fl.
Proof. intros (n & _ & ->). eexists _, _. reflexivity. Qed.

Lemma in_finalEvents (head' : TSendBuffer) (ret : Z) (e : Event) :
  In e (finalEvents head' ret) <->
  finalized head' ret /\
  (e = EvLoggerWrite (accessLogger head') \/ e = EvDeleteBuffer head').
Proof.
  unfold finalEvents. rewrite <- finalized_dec.
  destruct (atEnd head' || (ret <? 0)); simpl.
  - intuition congruence.
  - intuition congruence.
Qed.

Lemma in_rearm (this : TEpollSocket) (err : Z) (queue : list TSendBuffer)
    (e : Event) :
  In e (rearm this err queue) <->
  e = EvModifyPoll (uuid this) rearmEvents /\
  err <> Sys.EAGAIN /\ queue <> [].
Proof.
  unfold rearm.
  destruct (err =? Sys.EAGAIN) eqn:He; simpl.
  - apply Z.eqb_eq in He. intuition congruence.
  - apply Z.eqb_neq in He. destruct queue as [|b q]; simpl.
    + intuition congruence.
    + intuition congruence.
Qed.

(** The kernel takes the five bytes of the head: the head is flushed and
    deleted, the file-backed buffer behind it is now in front, untouched,
    and a fresh edge is asked for. *)
Example send_completes_head :
  send idleHandle takesEverything
  = Some (0,
          setSendBuf [createSendBufferFile [x61; x62]
                        (Some (mkFile [x63; x64; x65])) true (mkLogger 0)]
                     idleHandle,
          mkWorld 0 2 4096 [mkAnswer 2 None NoOut; mkAnswer 2 None NoOut],
          [EvSend 7 [x41; x42] Sys.MSG_NOSIGNAL;
           EvSend 7 [x43; x44] Sys.MSG_NOSIGNAL;
           EvSend 7 [x45] Sys.MSG_NOSIGNAL;
           EvLoggerWrite (mkLogger 5);
           EvDeleteBuffer
             (mkSendBuffer [x41; x42; x43; x44; x45] None false 5
                           (mkLogger 5));
           EvModifyPoll [x30] rearmEvents]).
Proof. reflexivity. Qed.

(** C1: a call of [send] that gets past its guards works on the head of the
    queue and on nothing else.  Every write it makes carries a chunk of the
    head's payload; the head is flushed to the access log, deleted and
    taken off the queue exactly when, after the loop, it is at its end or
    the call returns -1, which it does exactly when the captured error code
    is neither 0 nor EAGAIN; otherwise the head stays in front, further
    along.  The buffers behind the head are the same, in the same order,
    before and after, and no other buffer is flushed or deleted. *)
Theorem send_drains_head_only (this : TEpollSocket) (w : World)
    (head : TSendBuffer) (rest : list TSendBuffer) :
  sendBuf this = head :: rest ->
  deleting this = false ->
  (length (unsent head) <= length (oracle w))%nat ->
  exists ret this' w' ev head',
    send this w = Some (ret, this', w', ev) /\
    this' = setSendBuf (sendBuf this') this /\
    sameBuffer head head' /\
    (forall fd data fl,
       In (EvSend fd data fl) ev ->
       headChunk (sd this) (sendBufSize w) head (EvSend fd data fl)) /\
    (ret < 0 <->
     exists err, send_err this w = Some err /\ err <> 0 /\ err <> Sys.EAGAIN) /\
    (finalized head' ret ->
     sendBuf this' = rest /\
     In (EvLoggerWrite (accessLogger head')) ev /\
     In (EvDeleteBuffer head') ev) /\
    (~ finalized head' ret ->
     sendBuf this' = head' :: rest /\
     (forall lg, ~ In (EvLoggerWrite lg) ev) /\
     (forall b, ~ In (EvDeleteBuffer b) ev)) /\
    (forall lg, In (EvLoggerWrite lg) ev -> lg = accessLogger head') /\
    (forall b, In (EvDeleteBuffer b) ev -> b = head').
Proof.
  intros Hq Hdel Hlen.
  destruct (@send_loop_returns (sd this) (sendBufSize w) (oracle w)
              (errno w) 0 head Hlen) as [r Hloop].
  destruct (@send_loop_inv _ _ _ _ _ _ _ Hloop) as [Hsame Hsends].
  destruct (send_classify_cases this r)
    as (ret & head' & evLog & Hc & Hret & Hneg & Hkeep & Hfail & Hsame'
        & HevLog & _).
  destruct (@send_unfold this w head rest r Hq Hdel Hloop) as [Hsend Herr].
  rewrite (@send_finish_classified this w rest r _ _ _ Hc) in Hsend.
  rewrite Forall_forall in Hsends.
  assert (Hother : forall e,
            In e (slEvents r ++ evLog ++ finalEvents head' ret
                  ++ rearm this (slErr r) (finalQueue head' ret rest)) ->
            (forall lg, e <> EvLoggerWrite lg) ->
            (forall b, e <> EvDeleteBuffer b) ->
            In e (slEvents r) \/
            (exists lv fmt args, e = EvLog lv fmt args) \/
            e = EvModifyPoll (uuid this) rearmEvents).
  { intros e Hin Hlw Hdb. apply in_send_events in Hin.
    destruct Hin as [Hin|[Hin|[Hin|Hin]]].
    - left. exact Hin.
    - right. left. apply HevLog, Hin.
    - apply in_finalEvents in Hin. destruct Hin as [_ [He|He]].
      + elim (Hlw _ He).
      + elim (Hdb _ He).
    - right. right. apply in_rearm in Hin. apply Hin. }
  assert (Hfin : forall e,
            In e (slEvents r ++ evLog ++ finalEvents head' ret
                  ++ rearm this (slErr r) (finalQueue head' ret rest)) ->
            (exists lg, e = EvLoggerWrite lg) \/
            (exists b, e = EvDeleteBuffer b) ->
            In e (finalEvents head' ret)).
  { intros e Hin Hkind. apply in_send_events in Hin.
    destruct Hin as [Hin|[Hin|[Hin|Hin]]].
    - destruct (headChunk_is_send (Hsends _ Hin)) as (d & fl & ->).
      destruct Hkind as [[x Hx]|[x Hx]]; discriminate Hx.
    - destruct (HevLog _ Hin) as (lv & fmt & args & ->).
      destruct Hkind as [[x Hx]|[x Hx]]; discriminate Hx.
    - exact Hin.
    - apply in_rearm in Hin. destruct Hin as [-> _].
      destruct Hkind as [[x Hx]|[x Hx]]; discriminate Hx. }
  eexists ret, _, _, _, head'. split; [exact Hsend|].
  split; [reflexivity|].
  split; [exact (@sameBuffer_trans _ _ _ Hsame Hsame')|].
  split; [|split; [|split; [|split; [|split]]]].
  - intros fd data fl Hin.
    destruct (Hother _ Hin) as [Hs|[(lv & fmt & args & He)|He]];
      try discriminate.
    apply Hsends, Hs.
  - rewrite Herr. split.
    + intros Hlt. exists (slErr r). split; [reflexivity | tauto].
    + intros (err & Herr' & H0 & H1). injection Herr' as <-. tauto.
  - intros Hf. simpl sendBuf. unfold finalQueue.
    rewrite (proj2 (finalized_dec head' ret) Hf).
    split; [reflexivity|].
    split; apply in_send_events; right; right; left;
      apply in_finalEvents; tauto.
  - intros Hnf. simpl sendBuf.
    assert (Hb : atEnd head' || (ret <? 0) = false).
    { destruct (atEnd head' || (ret <? 0)) eqn:Hb; [|reflexivity].
      elim Hnf. apply finalized_dec, Hb. }
    split; [unfold finalQueue; rewrite Hb; reflexivity|]. split.
    + intros lg Hin.
      assert (Hin' := Hfin _ Hin (or_introl (ex_intro _ lg eq_refl))).
      apply in_finalEvents in Hin'. tauto.
    + intros b Hin.
      assert (Hin' := Hfin _ Hin (or_intror (ex_intro _ b eq_refl))).
      apply in_finalEvents in Hin'. tauto.
  - intros lg Hin.
    assert (Hin' := Hfin _ Hin (or_introl (ex_intro _ lg eq_refl))).
    apply in_finalEvents in Hin'.
    destruct Hin' as [_ [He|He]]; [injection He as ->; reflexivity|].
    discriminate He.
  - intros b Hin.
    assert (Hin' := Hfin _ Hin (or_intror (ex_intro _ b eq_refl))).
    apply in_finalEvents in Hin'.
    destruct Hin' as [_ [He|He]]; [discriminate He|].
    injection He as ->. reflexivity.
Qed.

Lemma send_drains_head_only_witness :
  let this := idleHandle in
  let w := blocksAfterTwoBytes in
  let head := createSendBuffer [x41; x42; x43; x44; x45] in
  let rest := [createSendBufferFile [x61; x62] (Some (mkFile [x63; x64; x65]))
                                    true (mkLogger 0)] in
  exists ret this' w' ev head',
    send this w = Some (ret, this', w', ev) /\
    this' = setSendBuf (sendBuf this') this /\
    sameBuffer head head' /\
    (forall fd data fl,
       In (EvSend fd data fl) ev ->
       headChunk (sd this) (sendBufSize w) head (EvSend fd data fl)) /\
    (ret < 0 <->
     exists err, send_err this w = Some err /\ err <> 0 /\ err <> Sys.EAGAIN) /\
    (finalized head' ret ->
     sendBuf this' = rest /\
     In (EvLoggerWrite (accessLogger head')) ev /\
     In (EvDeleteBuffer head') ev) /\
    (~ finalized head' ret ->
     sendBuf this' = head' :: rest /\
     (forall lg, ~ In (EvLoggerWrite lg) ev) /\
     (forall b, ~ In (EvDeleteBuffer b) ev)) /\
    (forall lg, In (EvLoggerWrite lg) ev -> lg = accessLogger head') /\
    (forall b, In (EvDeleteBuffer b) ev -> b = head').
Proof.
  apply (@send_drains_head_only idleHandle blocksAfterTwoBytes
           (createSendBuffer [x41; x42; x43; x44; x45])
           [createSendBufferFile [x61; x62] (Some (mkFile [x63; x64; x65]))
                                 true (mkLogger 0)]).
  - reflexivity.
  - reflexivity.
  - simpl. lia.
Defined.

Lemma rearmEvents_bits :
  Z.land rearmEvents Sys.EPOLLIN = Sys.EPOLLIN /\
  Z.land rearmEvents Sys.EPOLLOUT = Sys.EPOLLOUT /\
  Z.land rearmEvents Sys.EPOLLET = Sys.EPOLLET.
Proof. repeat split. Qed.

(** C5: when a call of [send] comes back, it has asked the poller to
    re-register the handle, for [EPOLLIN | EPOLLOUT | EPOLLET], exactly
    when the call captured an error code (it did not return at a guard),
    that code is not EAGAIN, and the queue it leaves is not empty; it never
    asks the poller for anything else. *)
Theorem send_rearms_iff (this : TEpollSocket) (w : World) :
  sendAnswered this w ->
  exists ret this' w' ev,
    send this w = Some (ret, this', w', ev) /\
    (In (EvModifyPoll (uuid this) rearmEvents) ev <->
     exists err,
       send_err this w = Some err /\ err <> Sys.EAGAIN /\ sendBuf this' <> []) /\
    (forall id events,
       In (EvModifyPoll id events) ev ->
       id = uuid this /\ events = rearmEvents) /\
    Z.land rearmEvents Sys.EPOLLIN = Sys.EPOLLIN /\
    Z.land rearmEvents Sys.EPOLLOUT = Sys.EPOLLOUT /\
    Z.land rearmEvents Sys.EPOLLET = Sys.EPOLLET.
Proof.
  unfold sendAnswered. intros Hans.
  assert (Hguard : send this w = Some (0, this, w, []) ->
                   send_err this w = None ->
                   exists ret this' w' ev,
                     send this w = Some (ret, this', w', ev) /\
                     (In (EvModifyPoll (uuid this) rearmEvents) ev <->
                      exists err,
                        send_err this w = Some err /\
                        err <> Sys.EAGAIN /\ sendBuf this' <> []) /\
                     (forall id events,
                        In (EvModifyPoll id events) ev ->
                        id = uuid this /\ events = rearmEvents) /\
                     Z.land rearmEvents Sys.EPOLLIN = Sys.EPOLLIN /\
                     Z.land rearmEvents Sys.EPOLLOUT = Sys.EPOLLOUT /\
                     Z.land rearmEvents Sys.EPOLLET = Sys.EPOLLET).
  { intros Hsend Herr. eexists _, _, _, _. split; [exact Hsend|].
    rewrite Herr. split; [|split; [|exact rearmEvents_bits]].
    - split; [intros [] | intros (err & Habs & _); discriminate Habs].
    - intros id events []. }
  destruct (sendBuf this) as [|head rest] eqn:Hq.
  - apply Hguard; unfold send, send_err; rewrite Hq; reflexivity.
  - destruct (deleting this) eqn:Hdel.
    + apply Hguard; unfold send, send_err; rewrite Hq, Hdel; reflexivity.
    + destruct Hans as [Habs|Hlen]; [discriminate Habs|].
      destruct (@send_loop_returns (sd this) (sendBufSize w) (oracle w)
                  (errno w) 0 head Hlen) as [r Hloop].
      destruct (@send_loop_inv _ _ _ _ _ _ _ Hloop) as [_ Hsends].
      rewrite Forall_forall in Hsends.
      destruct (send_classify_cases this r)
        as (ret & head' & evLog & Hc & _ & _ & _ & _ & _ & HevLog & _).
      destruct (@send_unfold this w head rest r Hq Hdel Hloop)
        as [Hsend Herr].
      rewrite (@send_finish_classified this w rest r _ _ _ Hc) in Hsend.
      assert (Hpoll : forall id events,
                In (EvModifyPoll id events)
                   (slEvents r ++ evLog ++ finalEvents head' ret
                    ++ rearm this (slErr r) (finalQueue head' ret rest)) ->
                In (EvModifyPoll id events)
                   (rearm this (slErr r) (finalQueue head' ret rest))).
      { intros id events Hin. apply in_send_events in Hin.
        destruct Hin as [Hin|[Hin|[Hin|Hin]]].
        - destruct (headChunk_is_send (Hsends _ Hin)) as (d & fl & Hx).
          discriminate Hx.
        - destruct (HevLog _ Hin) as (lv & fmt & args & Hx). discriminate Hx.
        - apply in_finalEvents in Hin.
          destruct Hin as [_ [Hx|Hx]]; discriminate Hx.
        - exact Hin. }
      eexists _, _, _, _. split; [exact Hsend|].
      rewrite Herr. simpl sendBuf.
      split; [|split; [|exact rearmEvents_bits]].
      * split.
        -- intros Hin. apply Hpoll, in_rearm in Hin.
           exists (slErr r). split; [reflexivity | tauto].
        -- intros (err & Herr' & Hne & Hq'). injection Herr' as <-.
           apply in_send_events. right. right. right.
           apply in_rearm. tauto.
      * intros id events Hin. apply Hpoll, in_rearm in Hin.
        destruct Hin as [Hx _]. injection Hx as -> ->. split; reflexivity.
Qed.

Lemma send_rearms_iff_witness :
  let this := idleHandle in
  let w := takesEverything in
  exists ret this' w' ev,
    send this w = Some (ret, this', w', ev) /\
    (In (EvModifyPoll (uuid this) rearmEvents) ev <->
     exists err,
       send_err this w = Some err /\ err <> Sys.EAGAIN /\ sendBuf this' <> []) /\
    (forall id events,
       In (EvModifyPoll id events) ev ->
       id = uuid this /\ events = rearmEvents) /\
    Z.land rearmEvents Sys.EPOLLIN = Sys.EPOLLIN /\
    Z.land rearmEvents Sys.EPOLLOUT = Sys.EPOLLOUT /\
    Z.land rearmEvents Sys.EPOLLET = Sys.EPOLLET.
Proof.
  apply (@send_rearms_iff idleHandle takesEverything).
  right. simpl. lia.
Defined.

Section BrokenPipe.

Variables fd sz : Z.
Hypothesis Hsz : 0 < sz.

Lemma sumRet_nonneg (pos : list Answer) :
  Forall (fun p => 0 < ansRet p) pos -> 0 <= sumRet pos.
Proof.
  unfold sumRet. induction 1 as [|p pos Hp _ IH]; simpl; lia.
Qed.

Lemma chunk_available (buf : TSendBuffer) :
  0 < size (unsent buf) -> size (chunk sz buf) <> 0.
Proof.
  intros Hav Hz. rewrite (chunk_empty_unsent buf Hsz Hz) in Hav.
  unfold size in Hav. simpl in Hav. lia.
Qed.

(** While less has been written than the head still holds, every
    successful write is followed by another attempt; the first write that
    fails ends the loop, with what was written so far accounted for in
    the cursor and in the logger. *)
Lemma send_loop_progress (a : Answer) (k : list Answer)
    (pos : list Answer) :
  ansRet a <= 0 ->
  Forall (fun p => 0 < ansRet p) pos ->
  forall e err buf,
    sumRet pos < size (unsent buf) ->
    exists r,
      send_loop fd sz e err buf (pos ++ a :: k) = Some r /\
      slErr r = errnoAfter 0 a /\
      slErrno r = errnoAfter 0 a /\
      slLen r = ansRet a /\
      slOracle r = k /\
      startPos (slBuf r) = (startPos buf + Z.to_nat (sumRet pos))%nat /\
      responseBytes (accessLogger (slBuf r))
      = responseBytes (accessLogger buf) + sumRet pos /\
      length (slEvents r) = S (length pos).
Proof.
  intros Hlast Hpos.
  induction Hpos as [|p pos Hp Hpos IH]; intros e err buf Hsum.
  - simpl app.
    rewrite (@send_loop_failed fd sz e err buf a k
               (chunk_available buf Hsum) Hlast).
    eexists. split; [reflexivity|]. unfold sumRet. simpl.
    repeat split; lia.
  - pose proof (sumRet_nonneg Hpos) as Hnn.
    assert (Hstep : sumRet (p :: pos) = ansRet p + sumRet pos)
      by reflexivity.
    rewrite Hstep in Hsum |- *.
    simpl app.
    rewrite (@send_loop_sent fd sz e err buf p (pos ++ a :: k))
      by (try apply chunk_available; lia).
    destruct (IH (errnoAfter 0 p) (errnoAfter 0 p)
                 (advance buf (ansRet p)))
      as (r & Hr & H1 & H2 & H3 & H4 & H5 & H6 & H7).
    + unfold size in *. rewrite unsent_advance. lia.
    + rewrite Hr. eexists. split; [reflexivity|]. simpl.
      rewrite H5, H6. simpl.
      repeat split; try assumption; try lia.
Qed.

End BrokenPipe.

(** C4: the head holds N unsent bytes; the kernel takes K of them, K < N,
    in some writes that succeed, and fails the next write with EPIPE.
    Then [send] returns -1; the head leaves the queue, which is just the
    buffers that were behind it; the head's logger, with [response_bytes]
    set to -1, is flushed and the head, its cursor K bytes on, is deleted;
    the kernel is not asked again (the answers after the failure are still
    unread). *)
Theorem send_broken_pipe (this : TEpollSocket) (w : World)
    (head : TSendBuffer) (rest : list TSendBuffer)
    (pos : list Answer) (a : Answer) (k : list Answer) :
  sendBuf this = head :: rest ->
  deleting this = false ->
  0 < sendBufSize w ->
  oracle w = pos ++ a :: k ->
  Forall (fun p => 0 < ansRet p) pos ->
  sumRet pos < size (unsent head) ->
  ansRet a <= 0 ->
  ansErrno a = Some Sys.EPIPE ->
  exists head' sends,
    send this w
    = Some (-1, setSendBuf rest this,
            mkWorld Sys.EPIPE (sendBufSize w) (recvBufSize w) k,
            sends
            ++ [EvLog LDebug "Socket disconnected : sd:%d  errno:%d"
                      [AInt (sd this); AInt Sys.EPIPE]]
            ++ [EvLoggerWrite (mkLogger (-1)); EvDeleteBuffer head']
            ++ rearm this Sys.EPIPE rest) /\
    sameBuffer head head' /\
    startPos head' = (startPos head + Z.to_nat (sumRet pos))%nat /\
    accessLogger head' = mkLogger (-1) /\
    length sends = S (length pos) /\
    Forall (headChunk (sd this) (sendBufSize w) head) sends.
Proof.
  intros Hq Hdel Hsz Hk Hpos Hsum Hlast Hpipe.
  destruct (@send_loop_progress (sd this) (sendBufSize w) Hsz a k pos Hlast
              Hpos (errno w) 0 head Hsum)
    as (r & Hloop & Herr & Herrno & _ & Hrest & Hcur & _ & Hcalls).
  rewrite <- Hk in Hloop.
  assert (He : errnoAfter 0 a = Sys.EPIPE)
    by (unfold errnoAfter; rewrite Hpipe; reflexivity).
  rewrite He in Herr, Herrno.
  destruct (@send_loop_inv _ _ _ _ _ _ _ Hloop) as [Hsame Hsends].
  destruct (send_classify_cases this r)
    as (ret & head' & evLog & Hc & Hret & Hneg & _ & Hfail & Hsame'
        & _ & Hlog).
  assert (Hlt : ret < 0).
  { apply Hneg. rewrite Herr. split; discriminate. }
  assert (Hret' : ret = -1) by lia.
  specialize (Hfail Hlt). specialize (Hlog Herr).
  destruct (@send_unfold this w head rest r Hq Hdel Hloop) as [Hsend _].
  rewrite (@send_finish_classified this w rest r _ _ _ Hc) in Hsend.
  assert (Hfin : atEnd head' || (ret <? 0) = true).
  { apply finalized_dec. right. exact Hlt. }
  unfold finalQueue, finalEvents in Hsend. rewrite Hfin in Hsend.
  rewrite Hlog, Herr, Herrno, Hrest, Hret' in Hsend.
  assert (Hlg : accessLogger head' = mkLogger (-1))
    by (rewrite Hfail; reflexivity).
  rewrite Hlg in Hsend.
  exists head', (slEvents r). split; [exact Hsend|].
  split; [exact (@sameBuffer_trans _ _ _ Hsame Hsame')|].
  split; [rewrite Hfail; exact Hcur|].
  split; [exact Hlg|]. split; assumption.
Qed.

Lemma send_broken_pipe_witness :
  let this := idleHandle in
  let w := pipeBreaksAfterTwoBytes in
  let head := createSendBuffer [x41; x42; x43; x44; x45] in
  let rest := [createSendBufferFile [x61; x62] (Some (mkFile [x63; x64; x65]))
                                    true (mkLogger 0)] in
  exists head' sends,
    send this w
    = Some (-1, setSendBuf rest this,
            mkWorld Sys.EPIPE 2 4096 [mkAnswer 2 None NoOut],
            sends
            ++ [EvLog LDebug "Socket disconnected : sd:%d  errno:%d"
                      [AInt 7; AInt Sys.EPIPE]]
            ++ [EvLoggerWrite (mkLogger (-1)); EvDeleteBuffer head']
            ++ rearm this Sys.EPIPE rest) /\
    sameBuffer head head' /\
    startPos head' = 2%nat /\
    accessLogger head' = mkLogger (-1) /\
    length sends = 2%nat /\
    Forall (headChunk 7 2 head) sends.
Proof.
  apply (@send_broken_pipe idleHandle pipeBreaksAfterTwoBytes
           (createSendBuffer [x41; x42; x43; x44; x45])
           [createSendBufferFile [x61; x62] (Some (mkFile [x63; x64; x65]))
                                 true (mkLogger 0)]
           [mkAnswer 2 None NoOut]
           (mkAnswer (-1) (Some Sys.EPIPE) NoOut)
           [mkAnswer 2 None NoOut]).
  - reflexivity.
  - reflexivity.
  - reflexivity.
  - reflexivity.
  - repeat constructor.
  - reflexivity.
  - simpl. lia.
  - reflexivity.
Defined.

(** * Further properties *)

(** ** Shared buffer sizing *)

(** X1: on a process whose sizes are not set, [initBuffer] asks the kernel
    for both, one query each.  Each size on its own: it becomes 131072 when
    its query fails and is what the kernel stored when its query succeeds,
    whatever the other query did.  And once the send size has come out
    non-zero, [initBuffer] never asks again nor changes a size. *)
Theorem initBuffer_falls_back_then_settles (d : Z) (w : World)
    (a1 a2 : Answer) (k : list Answer) :
  sendBufSize w = 0 ->
  oracle w = a1 :: a2 :: k ->
  exists w',
    initBuffer d w = Some (w', sizeQueries d) /\
    (ansRet a1 < 0 -> sendBufSize w' = 131072) /\
    (0 <= ansRet a1 -> sendBufSize w' = storeInt 0 a1) /\
    (ansRet a2 < 0 -> recvBufSize w' = 131072) /\
    (0 <= ansRet a2 -> recvBufSize w' = storeInt (recvBufSize w) a2) /\
    oracle w' = k /\
    (sendBufSize w' <> 0 -> forall d', initBuffer d' w' = Some (w', [])).
Proof.
  intros Hz Hk. unfold initBuffer at 1. rewrite Hz, Hk. simpl.
  eexists. split; [reflexivity|]. simpl.
  split; [|split; [|split; [|split; [|split; [reflexivity|]]]]].
  - intros H1. apply Z.ltb_lt in H1. rewrite H1. reflexivity.
  - intros H1. apply Z.ltb_ge in H1. rewrite H1. reflexivity.
  - intros H2. apply Z.ltb_lt in H2. rewrite H2. reflexivity.
  - intros H2. apply Z.ltb_ge in H2. rewrite H2. reflexivity.
  - intros Hset d'. unfold initBuffer. simpl.
    apply Z.eqb_neq in Hset. rewrite Hset. reflexivity.
Qed.

Lemma initBuffer_falls_back_then_settles_witness :
  exists w',
    initBuffer 9 recvQueryFails = Some (w', sizeQueries 9) /\
    sendBufSize w' = 4096 /\
    recvBufSize w' = 131072 /\
    oracle w' = [] /\
    forall d', initBuffer d' w' = Some (w', []).
Proof.
  destruct (@initBuffer_falls_back_then_settles 9 recvQueryFails
              (mkAnswer 0 None (OutInt 4096)) (mkAnswer (-1) (Some 9) NoOut)
              [] eq_refl eq_refl)
    as (w' & Hrun & _ & Hsnd & Hrcv & _ & Hk & Hset).
  assert (Hs : sendBufSize w' = 4096) by (apply Hsnd; simpl; lia).
  exists w'. split; [exact Hrun|]. split; [exact Hs|].
  split; [apply Hrcv; simpl; lia|]. split; [exact Hk|].
  apply Hset. rewrite Hs. discriminate.
Defined.



(** ** Construction *)

Lemma mid_strips_ends (x y : byte) (s : bytes) :
  mid 1 (size (x :: s ++ [y]) - 2) (x :: s ++ [y]) = s.
Proof.
  unfold mid, size. simpl length. rewrite length_app. simpl length.
  assert (Hlen : Z.of_nat (S (length s + 1)) - 2 = Z.of_nat (length s))
    by lia.
  rewrite Hlen.
  assert (Hge : (Z.of_nat (length s) <? 0) = false)
    by (apply Z.ltb_ge; lia).
  rewrite Hge, Nat2Z.id. simpl skipn.
  rewrite firstn_app, firstn_all, Nat.sub_diag. simpl.
  apply app_nil_r.
Qed.

(** X3: a handle is born active and empty: the text of the UUID, which
    comes between two braces, is kept without them; [deleting] is clear, no
    worker is counted, nothing is queued or buffered; the shared sizes are
    not touched. *)
Theorem construct_fresh_handle (d : Z) (address : QHostAddress) (w : World)
    (u : Answer) (k : list Answer) (id : bytes) :
  oracle w = u :: k ->
  outBytes u = x7b :: id ++ [x7d] ->
  exists sock ev,
    construct d address w
    = Some (sock, mkWorld (errno w) (sendBufSize w) (recvBufSize w) k, ev) /\
    uuid sock = id /\
    sd sock = d /\
    clientAddr sock = address /\
    deleting sock = false /\
    myWorkerCounter sock = 0 /\
    bufferedListCount sock = 0 /\
    bufferedBytes sock = 0 /\
    rbData (recvBuf sock) = [].
Proof.
  intros Hk Hu. unfold construct. rewrite Hk, Hu, mid_strips_ends.
  eexists _, _. split; [reflexivity|]. repeat split.
Qed.

Lemma construct_fresh_handle_witness :
  exists sock ev,
    construct 9 [x7f; x00; x00; x01] sizesKnown
    = Some (sock, mkWorld 0 4096 8192 [], ev) /\
    uuid sock = [x61; x62] /\
    sd sock = 9 /\
    clientAddr sock = [x7f; x00; x00; x01] /\
    deleting sock = false /\
    myWorkerCounter sock = 0 /\
    bufferedListCount sock = 0 /\
    bufferedBytes sock = 0 /\
    rbData (recvBuf sock) = [].
Proof.
  apply (@construct_fresh_handle 9 [x7f; x00; x00; x01] sizesKnown
           (mkAnswer 0 None (OutBytes [x7b; x61; x62; x7d])) []
           [x61; x62]);
    reflexivity.
Defined.

(** ** Closing *)

Lemma destructor_keeps_closed (this : TEpollSocket) :
  sd this <= 0 ->
  forall fd, ~ In (EvClose fd) (snd (destructor this)).
Proof.
  intros Hle fd Hin. rewrite destructor_events in Hin.
  apply Z.ltb_ge in Hle. rewrite Hle in Hin. simpl in Hin.
  destruct Hin as [Hin|Hin]; [discriminate Hin|].
  apply in_map_iff in Hin. destruct Hin as (b & Hb & _). discriminate Hb.
Qed.

(** X4: the descriptor is released at most once: [close] calls [tf_close]
    exactly when the descriptor is positive and leaves it at 0; a second
    [close], and the destructor after a [close], call [tf_close] no more;
    a handle whose descriptor is not positive is left as it is. *)
Theorem close_releases_once (this : TEpollSocket) :
  let closed := fst (close this) in
  sd closed <= 0 /\
  snd (close this) = (if 0 <? sd this then [EvClose (sd this)] else []) /\
  closed = (if 0 <? sd this then setSd 0 this else this) /\
  close closed = (closed, []) /\
  forall fd, ~ In (EvClose fd) (snd (destructor closed)).
Proof.
  intros closed.
  assert (Hc : sd closed <= 0).
  { unfold closed, close. destruct (0 <? sd this) eqn:Hfd; simpl; [lia|].
    apply Z.ltb_ge, Hfd. }
  split; [exact Hc|].
  split; [unfold close; destruct (0 <? sd this); reflexivity|].
  split; [unfold closed, close; destruct (0 <? sd this); reflexivity|].
  split; [|apply destructor_keeps_closed, Hc].
  unfold close at 1. apply Z.ltb_ge in Hc. rewrite Hc. reflexivity.
Qed.

(** X5: the destructor leaves nothing behind: the queue is empty, so
    [bufferedBytes] and [bufferedListCount] are 0, no descriptor is open,
    and running it again would neither close nor delete anything. *)
Theorem destructor_leaves_nothing (this : TEpollSocket) :
  let gone := fst (destructor this) in
  sendBuf gone = [] /\
  bufferedBytes gone = 0 /\
  bufferedListCount gone = 0 /\
  sd gone <= 0 /\
  destructor gone = (gone, [EvLog LDebug "TEpollSocket::destructor" []]).
Proof.
  destruct this as [del cnt fd id addr q rb posted].
  rewrite destructor_state. simpl sd.
  destruct (0 <? fd) eqn:Hfd; simpl.
  - repeat split. lia.
  - apply Z.ltb_ge in Hfd. repeat split; try assumption.
    unfold destructor, close. simpl.
    rewrite <- Z.ltb_ge in Hfd. rewrite Hfd. reflexivity.
Qed.

(** ** The write loop *)

Section WriteLoop.

Variables fd sz : Z.

(** The logger counts what the cursor has passed. *)
Lemma send_loop_counts (k : list Answer) :
  forall e err buf r,
    send_loop fd sz e err buf k = Some r ->
    responseBytes (accessLogger (slBuf r))
    = responseBytes (accessLogger buf)
      + (Z.of_nat (startPos (slBuf r)) - Z.of_nat (startPos buf)).
Proof.
  induction k as [|a k IH]; intros e err buf r Hloop.
  - destruct (Z.eq_dec (size (chunk sz buf)) 0) as [Hz|Hnz].
    + rewrite (@send_loop_done fd sz e err buf [] Hz) in Hloop.
      injection Hloop as <-. simpl. lia.
    + rewrite (@send_loop_stuck fd sz e err buf Hnz) in Hloop. discriminate.
  - destruct (Z.eq_dec (size (chunk sz buf)) 0) as [Hz|Hnz].
    + rewrite (@send_loop_done fd sz e err buf (a :: k) Hz) in Hloop.
      injection Hloop as <-. simpl. lia.
    + destruct (Z_le_gt_dec (ansRet a) 0) as [Hle|Hgt].
      * rewrite (@send_loop_failed fd sz e err buf a k Hnz Hle) in Hloop.
        injection Hloop as <-. simpl. lia.
      * rewrite (@send_loop_sent fd sz e err buf a k Hnz) in Hloop by lia.
        destruct (send_loop fd sz (errnoAfter 0 a) (errnoAfter 0 a)
                            (advance buf (ansRet a)) k)
          as [r0|] eqn:Hrec; [|discriminate].
        injection Hloop as <-. simpl.
        rewrite (IH _ _ _ _ Hrec). simpl. lia.
Qed.

(** Every write is of at least one byte and of at most [sz]. *)
Lemma send_loop_writes_bounded (k : list Answer) :
  forall e err buf r,
    send_loop fd sz e err buf k = Some r ->
    Forall (fun ev => exists data,
                ev = EvSend fd data Sys.MSG_NOSIGNAL /\
                0 < size data <= sz)
           (slEvents r).
Proof.
  assert (Hchunk : forall buf,
             size (chunk sz buf) <> 0 ->
             exists data,
               EvSend fd (chunk sz buf) Sys.MSG_NOSIGNAL
               = EvSend fd data Sys.MSG_NOSIGNAL /\
               0 < size data <= sz).
  { intros buf Hnz. exists (chunk sz buf). split; [reflexivity|].
    destruct (@chunk_nonempty sz buf Hnz) as [Hsz _].
    unfold size, chunk in *.
    pose proof (firstn_le_length (Z.to_nat sz) (unsent buf)). lia. }
  induction k as [|a k IH]; intros e err buf r Hloop.
  - destruct (Z.eq_dec (size (chunk sz buf)) 0) as [Hz|Hnz].
    + rewrite (@send_loop_done fd sz e err buf [] Hz) in Hloop.
      injection Hloop as <-. constructor.
    + rewrite (@send_loop_stuck fd sz e err buf Hnz) in Hloop. discriminate.
  - destruct (Z.eq_dec (size (chunk sz buf)) 0) as [Hz|Hnz].
    + rewrite (@send_loop_done fd sz e err buf (a :: k) Hz) in Hloop.
      injection Hloop as <-. constructor.
    + destruct (Z_le_gt_dec (ansRet a) 0) as [Hle|Hgt].
      * rewrite (@send_loop_failed fd sz e err buf a k Hnz Hle) in Hloop.
        injection Hloop as <-. simpl.
        constructor; [apply Hchunk, Hnz | constructor].
      * rewrite (@send_loop_sent fd sz e err buf a k Hnz) in Hloop by lia.
        destruct (send_loop fd sz (errnoAfter 0 a) (errnoAfter 0 a)
                            (advance buf (ansRet a)) k)
          as [r0|] eqn:Hrec; [|discriminate].
        injection Hloop as <-. simpl.
        constructor; [apply Hchunk, Hnz | exact (IH _ _ _ _ Hrec)].
Qed.

Lemma goodWrite_positive (pos : list Answer) :
  Forall (goodWrite sz) pos -> Forall (fun p => 0 < ansRet p) pos.
Proof. apply Forall_impl. intros p [[Hp _] _]. exact Hp. Qed.

Lemma unsent_empty_atEnd (buf : TSendBuffer) :
  unsent buf = [] -> atEnd buf = true.
Proof.
  intros Hu. unfold atEnd. apply Nat.leb_le.
  assert (Hlen : length (unsent buf) = 0%nat) by (rewrite Hu; reflexivity).
  unfold unsent in Hlen. rewrite length_skipn in Hlen. lia.
Qed.

Lemma unsent_left_not_atEnd (buf : TSendBuffer) :
  0 < size (unsent buf) -> atEnd buf = false.
Proof.
  intros Hu. unfold atEnd. apply Nat.leb_gt.
  unfold size, unsent in Hu. rewrite length_skipn in Hu. lia.
Qed.

Lemma unsent_split (buf : TSendBuffer) (len : Z) :
  0 < len <= sz ->
  firstn (Z.to_nat len) (chunk sz buf) ++ unsent (advance buf len)
  = unsent buf.
Proof.
  intros Hlen. unfold chunk.
  rewrite firstn_firstn, Nat.min_l by lia.
  unfold unsent at 2.
  rewrite (sameBuffer_payload (sameBuffer_advance buf len)).
  simpl startPos. rewrite Nat.add_comm, <- skipn_skipn.
  apply firstn_skipn.
Qed.

(** The kernel takes everything: the loop writes until the buffer is at
    its end, and what the kernel took, put end to end, is what was
    unsent. *)
Lemma send_loop_all_taken (k : list Answer) (pos : list Answer) :
  Forall (goodWrite sz) pos ->
  forall e buf,
    sumRet pos = size (unsent buf) ->
    exists r,
      send_loop fd sz e 0 buf (pos ++ k) = Some r /\
      slErr r = 0 /\
      slOracle r = k /\
      atEnd (slBuf r) = true /\
      accepted pos (slEvents r) = unsent buf /\
      length (slEvents r) = length pos /\
      responseBytes (accessLogger (slBuf r))
      = responseBytes (accessLogger buf) + sumRet pos.
Proof.
  intros Hgood. induction Hgood as [|p pos Hp Hgood IH]; intros e buf Hsum.
  - assert (Hu : unsent buf = []).
    { unfold sumRet, size in Hsum. simpl in Hsum.
      destruct (unsent buf); [reflexivity | simpl in Hsum; lia]. }
    assert (Hz : size (chunk sz buf) = 0)
      by (unfold chunk; rewrite Hu, firstn_nil; reflexivity).
    simpl app. rewrite (@send_loop_done fd sz e 0 buf k Hz).
    eexists. split; [reflexivity|]. simpl.
    repeat split; auto using unsent_empty_atEnd.
    unfold sumRet. simpl. lia.
  - pose proof (sumRet_nonneg (goodWrite_positive Hgood)) as Hnn.
    assert (Hstep : sumRet (p :: pos) = ansRet p + sumRet pos)
      by reflexivity.
    rewrite Hstep in Hsum.
    destruct Hp as [[Hpos Hle] Hnone].
    assert (Hsz : 0 < sz) by lia.
    assert (Hnz : size (chunk sz buf) <> 0)
      by (apply chunk_available; lia).
    assert (Herr : errnoAfter 0 p = 0)
      by (unfold errnoAfter; rewrite Hnone; reflexivity).
    simpl app.
    rewrite (@send_loop_sent fd sz e 0 buf p (pos ++ k) Hnz Hpos), Herr.
    destruct (IH 0 (advance buf (ansRet p)))
      as (r & Hr & H1 & H2 & H3 & H4 & H5 & H6).
    + unfold size in *. rewrite unsent_advance. lia.
    + rewrite Hr. eexists. split; [reflexivity|]. simpl.
      repeat split; try assumption.
      * rewrite H4. apply unsent_split. lia.
      * rewrite H5. reflexivity.
      * rewrite H6. simpl. lia.
Qed.

End WriteLoop.

Lemma send_classify_soft (fd : Z) (r : SendLoop) :
  slErr r = 0 \/ slErr r = Sys.EAGAIN ->
  send_classify fd r = (0, slBuf r, []).
Proof.
  intros [He|He]; unfold send_classify; rewrite He; reflexivity.
Qed.

Lemma send_classify_fatal (fd : Z) (r : SendLoop) :
  slErr r <> 0 -> slErr r <> Sys.EAGAIN -> slErr r <> Sys.EPIPE ->
  send_classify fd r
  = (-1, withLogger (setResponseBytes (-1)) (slBuf r),
     [EvLog LError "Failed send : sd:%d  errno:%d  len:%d"
            [AInt fd; AInt (slErr r); AInt (slLen r)]]).
Proof.
  intros H0 H1 H2. unfold send_classify.
  apply Z.eqb_neq in H0, H1, H2. rewrite H0, H1, H2. reflexivity.
Qed.

(** ** Outcomes of a call of [send] *)

(** X6: the kernel takes K bytes of the N the head holds, K < N, and the
    next write fails softly: it would block (EAGAIN), or it returns without
    an error code.  Then [send] returns 0 and nothing is lost: the head
    stays in front of the same tail, its cursor and its logger's byte count
    K further; nothing is logged, flushed or deleted; the poller is asked
    for a fresh edge only when the code was not EAGAIN. *)
Theorem send_soft_failure_keeps_head (this : TEpollSocket) (w : World)
    (head : TSendBuffer) (rest : list TSendBuffer)
    (pos : list Answer) (a : Answer) (k : list Answer) :
  sendBuf this = head :: rest ->
  deleting this = false ->
  0 < sendBufSize w ->
  oracle w = pos ++ a :: k ->
  Forall (fun p => 0 < ansRet p) pos ->
  sumRet pos < size (unsent head) ->
  ansRet a <= 0 ->
  errnoAfter 0 a = 0 \/ errnoAfter 0 a = Sys.EAGAIN ->
  exists head' sends,
    send this w
    = Some (0, setSendBuf (head' :: rest) this,
            mkWorld (errnoAfter 0 a) (sendBufSize w) (recvBufSize w) k,
            sends
            ++ (if errnoAfter 0 a =? Sys.EAGAIN then []
                else [EvModifyPoll (uuid this) rearmEvents])) /\
    sameBuffer head head' /\
    startPos head' = (startPos head + Z.to_nat (sumRet pos))%nat /\
    responseBytes (accessLogger head')
    = responseBytes (accessLogger head) + sumRet pos /\
    length sends = S (length pos) /\
    Forall (headChunk (sd this) (sendBufSize w) head) sends.
Proof.
  intros Hq Hdel Hsz Hk Hpos Hsum Hlast Hsoft.
  destruct (@send_loop_progress (sd this) (sendBufSize w) Hsz a k pos Hlast
              Hpos (errno w) 0 head Hsum)
    as (r & Hloop & Herr & Herrno & _ & Hrest & Hcur & Hcount & Hcalls).
  rewrite <- Hk in Hloop.
  destruct (@send_loop_inv _ _ _ _ _ _ _ Hloop) as [Hsame Hsends].
  destruct (@send_unfold this w head rest r Hq Hdel Hloop) as [Hsend _].
  rewrite <- Herr in Hsoft.
  rewrite (@send_finish_classified this w rest r _ _ _
             (send_classify_soft (sd this) r Hsoft)) in Hsend.
  assert (Hnot : atEnd (slBuf r) = false).
  { apply unsent_left_not_atEnd. unfold size, unsent in *.
    rewrite length_skipn in *.
    rewrite (sameBuffer_payload Hsame), Hcur.
    pose proof (sumRet_nonneg Hpos). lia. }
  unfold finalQueue, finalEvents, rearm in Hsend.
  rewrite Hnot in Hsend. simpl in Hsend.
  rewrite Herr, Herrno, Hrest in Hsend.
  exists (slBuf r), (slEvents r).
  split; [|split; [exact Hsame|]; split; [exact Hcur|];
           split; [exact Hcount|]; split; assumption].
  rewrite Hsend. destruct (errnoAfter 0 a =? Sys.EAGAIN); reflexivity.
Qed.

Lemma send_soft_failure_keeps_head_witness :
  let this := idleHandle in
  let w := blocksAfterTwoBytes in
  let head := createSendBuffer [x41; x42; x43; x44; x45] in
  let rest := [createSendBufferFile [x61; x62] (Some (mkFile [x63; x64; x65]))
                                    true (mkLogger 0)] in
  exists head' sends,
    send this w
    = Some (0, setSendBuf (head' :: rest) this,
            mkWorld Sys.EAGAIN 2 4096 (skipn 2 (oracle w)),
            sends
            ++ (if Sys.EAGAIN =? Sys.EAGAIN then []
                else [EvModifyPoll (uuid this) rearmEvents])) /\
    sameBuffer head head' /\
    startPos head' = 2%nat /\
    responseBytes (accessLogger head') = 0 + 2 /\
    length sends = 2%nat /\
    Forall (headChunk 7 2 head) sends.
Proof.
  apply (@send_soft_failure_keeps_head idleHandle blocksAfterTwoBytes
           (createSendBuffer [x41; x42; x43; x44; x45])
           [createSendBufferFile [x61; x62] (Some (mkFile [x63; x64; x65]))
                                 true (mkLogger 0)]
           [mkAnswer 2 None NoOut]
           (mkAnswer (-1) (Some Sys.EAGAIN) NoOut)
           (skipn 2 (oracle blocksAfterTwoBytes))).
  - reflexivity.
  - reflexivity.
  - reflexivity.
  - reflexivity.
  - repeat constructor.
  - reflexivity.
  - simpl. lia.
  - right. reflexivity.
Defined.

(** X7: the kernel takes K bytes of the N the head holds, K < N, and the
    next write fails with a code that is none of 0, EAGAIN and EPIPE.  Then
    [send] returns -1 after one error-level line that carries the
    descriptor, the code and the value the failed write returned; the head
    is abandoned: its logger is flushed with [response_bytes] at -1, it is
    deleted, the queue is the former tail. *)
Theorem send_fatal_error_abandons_head (this : TEpollSocket) (w : World)
    (head : TSendBuffer) (rest : list TSendBuffer)
    (pos : list Answer) (a : Answer) (k : list Answer) :
  sendBuf this = head :: rest ->
  deleting this = false ->
  0 < sendBufSize w ->
  oracle w = pos ++ a :: k ->
  Forall (fun p => 0 < ansRet p) pos ->
  sumRet pos < size (unsent head) ->
  ansRet a <= 0 ->
  errnoAfter 0 a <> 0 ->
  errnoAfter 0 a <> Sys.EAGAIN ->
  errnoAfter 0 a <> Sys.EPIPE ->
  exists head' sends,
    send this w
    = Some (-1, setSendBuf rest this,
            mkWorld (errnoAfter 0 a) (sendBufSize w) (recvBufSize w) k,
            sends
            ++ [EvLog LError "Failed send : sd:%d  errno:%d  len:%d"
                      [AInt (sd this); AInt (errnoAfter 0 a);
                       AInt (ansRet a)]]
            ++ [EvLoggerWrite (mkLogger (-1)); EvDeleteBuffer head']
            ++ rearm this (errnoAfter 0 a) rest) /\
    sameBuffer head head' /\
    startPos head' = (startPos head + Z.to_nat (sumRet pos))%nat /\
    accessLogger head' = mkLogger (-1) /\
    length sends = S (length pos).
Proof.
  intros Hq Hdel Hsz Hk Hpos Hsum Hlast H0 H1 H2.
  destruct (@send_loop_progress (sd this) (sendBufSize w) Hsz a k pos Hlast
              Hpos (errno w) 0 head Hsum)
    as (r & Hloop & Herr & Herrno & Hlen & Hrest & Hcur & _ & Hcalls).
  rewrite <- Hk in Hloop.
  destruct (@send_loop_inv _ _ _ _ _ _ _ Hloop) as [Hsame _].
  destruct (@send_unfold this w head rest r Hq Hdel Hloop) as [Hsend _].
  rewrite <- Herr in H0, H1, H2.
  rewrite (@send_finish_classified this w rest r _ _ _
             (send_classify_fatal (sd this) r H0 H1 H2)) in Hsend.
  unfold finalQueue, finalEvents in Hsend.
  rewrite orb_true_r in Hsend. simpl accessLogger in Hsend.
  rewrite Herr, Herrno, Hrest, Hlen in Hsend.
  eexists _, (slEvents r). split; [exact Hsend|].
  split; [exact (@sameBuffer_trans _ _ _ Hsame
                   (sameBuffer_withLogger _ (slBuf r)))|].
  split; [exact Hcur|]. split; [reflexivity | exact Hcalls].
Qed.

Lemma send_fatal_error_abandons_head_witness :
  let this := idleHandle in
  let w := resetAfterTwoBytes in
  let head := createSendBuffer [x41; x42; x43; x44; x45] in
  let rest := [createSendBufferFile [x61; x62] (Some (mkFile [x63; x64; x65]))
                                    true (mkLogger 0)] in
  exists head' sends,
    send this w
    = Some (-1, setSendBuf rest this,
            mkWorld Sys.ECONNRESET 2 4096 [],
            sends
            ++ [EvLog LError "Failed send : sd:%d  errno:%d  len:%d"
                      [AInt 7; AInt Sys.ECONNRESET; AInt (-1)]]
            ++ [EvLoggerWrite (mkLogger (-1)); EvDeleteBuffer head']
            ++ rearm this Sys.ECONNRESET rest) /\
    sameBuffer head head' /\
    startPos head' = 2%nat /\
    accessLogger head' = mkLogger (-1) /\
    length sends = 2%nat.
Proof.
  apply (@send_fatal_error_abandons_head idleHandle resetAfterTwoBytes
           (createSendBuffer [x41; x42; x43; x44; x45])
           [createSendBufferFile [x61; x62] (Some (mkFile [x63; x64; x65]))
                                 true (mkLogger 0)]
           [mkAnswer 2 None NoOut]
           (mkAnswer (-1) (Some Sys.ECONNRESET) NoOut) []).
  - reflexivity.
  - reflexivity.
  - reflexivity.
  - reflexivity.
  - repeat constructor.
  - reflexivity.
  - simpl. lia.
  - vm_compute. discriminate.
  - vm_compute. discriminate.
  - vm_compute. discriminate.
Defined.

(** One call drains the head when the kernel takes all of it. *)
Lemma send_all_taken (this : TEpollSocket) (w : World)
    (head : TSendBuffer) (rest : list TSendBuffer)
    (pos : list Answer) (k : list Answer) :
  sendBuf this = head :: rest ->
  deleting this = false ->
  oracle w = pos ++ k ->
  Forall (goodWrite (sendBufSize w)) pos ->
  sumRet pos = size (unsent head) ->
  exists head' sends e,
    send this w
    = Some (0, setSendBuf rest this,
            mkWorld e (sendBufSize w) (recvBufSize w) k,
            sends
            ++ [EvLoggerWrite
                  (mkLogger (responseBytes (accessLogger head)
                             + size (unsent head)));
                EvDeleteBuffer head']
            ++ rearm this 0 rest) /\
    accepted pos sends = unsent head /\
    length sends = length pos /\
    sameBuffer head head' /\
    atEnd head' = true.
Proof.
  intros Hq Hdel Hk Hgood Hsum.
  destruct (@send_loop_all_taken (sd this) (sendBufSize w) k pos Hgood
              (errno w) head Hsum)
    as (r & Hloop & Herr & Hrest & Hend & Hacc & Hcalls & Hcount).
  rewrite <- Hk in Hloop.
  destruct (@send_loop_inv _ _ _ _ _ _ _ Hloop) as [Hsame _].
  destruct (@send_unfold this w head rest r Hq Hdel Hloop) as [Hsend _].
  rewrite (@send_finish_classified this w rest r _ _ _
             (send_classify_soft (sd this) r (or_introl Herr))) in Hsend.
  unfold finalQueue, finalEvents in Hsend.
  rewrite Hend in Hsend. simpl in Hsend.
  rewrite Herr, Hrest in Hsend.
  assert (Hlg : accessLogger (slBuf r)
                = mkLogger (responseBytes (accessLogger head)
                            + size (unsent head))).
  { destruct (accessLogger (slBuf r)) as [n]. simpl in Hcount.
    rewrite Hcount, Hsum. reflexivity. }
  rewrite Hlg in Hsend.
  exists (slBuf r), (slEvents r), (slErrno r).
  split; [exact Hsend|]. split; [exact Hacc|]. split; [exact Hcalls|].
  split; assumption.
Qed.

(** X8: the kernel takes all the N bytes the head still holds, in writes of
    at most the chunk size that leave [errno] alone.  Then one call of
    [send] transmits the whole buffer: what the kernel took, write after
    write, is exactly the unsent part of the head, in order; the call
    returns 0, the logger is flushed with N added to its byte count, the
    head is deleted and the queue is the former tail; the kernel was asked
    once per write taken and no more. *)
Theorem send_transmits_whole_head (this : TEpollSocket) (w : World)
    (head : TSendBuffer) (rest : list TSendBuffer)
    (pos : list Answer) (k : list Answer) :
  sendBuf this = head :: rest ->
  deleting this = false ->
  oracle w = pos ++ k ->
  Forall (goodWrite (sendBufSize w)) pos ->
  sumRet pos = size (unsent head) ->
  exists head' sends e,
    send this w
    = Some (0, setSendBuf rest this,
            mkWorld e (sendBufSize w) (recvBufSize w) k,
            sends
            ++ [EvLoggerWrite
                  (mkLogger (responseBytes (accessLogger head)
                             + size (unsent head)));
                EvDeleteBuffer head']
            ++ rearm this 0 rest) /\
    accepted pos sends = unsent head /\
    length sends = length pos /\
    sameBuffer head head' /\
    atEnd head' = true.
Proof. apply send_all_taken. Qed.

Lemma send_transmits_whole_head_witness :
  let data := [x41; x42; x43; x44; x45] in
  let this := enqueueSendData (createSendBuffer data) readingHandle in
  let w := takesFiveBytes in
  let pos := [mkAnswer 2 None NoOut; mkAnswer 2 None NoOut;
              mkAnswer 1 None NoOut] in
  exists head' sends e,
    send this w
    = Some (0, setSendBuf [] this,
            mkWorld e 2 4096 [mkAnswer 2 None NoOut],
            sends
            ++ [EvLoggerWrite (mkLogger (0 + size data));
                EvDeleteBuffer head']
            ++ rearm this 0 []) /\
    accepted pos sends = data /\
    length sends = 3%nat /\
    sameBuffer (createSendBuffer data) head' /\
    atEnd head' = true.
Proof.
  apply (@send_transmits_whole_head
           (enqueueSendData (createSendBuffer [x41; x42; x43; x44; x45])
                            readingHandle)
           takesFiveBytes
           (createSendBuffer [x41; x42; x43; x44; x45]) []
           [mkAnswer 2 None NoOut; mkAnswer 2 None NoOut;
            mkAnswer 1 None NoOut]
           [mkAnswer 2 None NoOut]).
  - reflexivity.
  - reflexivity.
  - reflexivity.
  - repeat constructor; simpl; lia.
  - reflexivity.
Defined.

Section AnyCall.

Variable this : TEpollSocket.
Variable w : World.
Variables (ret : Z) (this' : TEpollSocket) (w' : World) (ev : list Event).
Hypothesis Hsend : send this w = Some (ret, this', w', ev).

(** A call that returns either stopped at a guard, or went through the
    loop and the finish. *)
Lemma send_returned :
  (ret = 0 /\ this' = this /\ w' = w /\ ev = [] /\
   (sendBuf this = [] \/ deleting this = true)) \/
  exists head rest r head' evLog,
    sendBuf this = head :: rest /\
    deleting this = false /\
    send_loop (sd this) (sendBufSize w) (errno w) 0 head (oracle w)
    = Some r /\
    send_classify (sd this) r = (ret, head', evLog) /\
    this' = setSendBuf (finalQueue head' ret rest) this /\
    w' = mkWorld (slErrno r) (sendBufSize w) (recvBufSize w) (slOracle r) /\
    ev = slEvents r ++ evLog ++ finalEvents head' ret
         ++ rearm this (slErr r) (finalQueue head' ret rest).
Proof.
  unfold send in Hsend.
  destruct (sendBuf this) as [|head rest] eqn:Hq.
  - left. injection Hsend as <- <- <- <-. repeat split. left. reflexivity.
  - destruct (deleting this) eqn:Hdel.
    + left. injection Hsend as <- <- <- <-. repeat split. right. reflexivity.
    + right.
      destruct (send_loop (sd this) (sendBufSize w) (errno w) 0 head
                          (oracle w)) as [r|] eqn:Hloop; [|discriminate].
      destruct (send_classify (sd this) r) as [[ret0 head'] evLog] eqn:Hc.
      rewrite (@send_finish_classified this w rest r _ _ _ Hc) in Hsend.
      injection Hsend as <- <- <- <-.
      exists head, rest, r, head', evLog. repeat split; assumption.
Qed.

End AnyCall.

(** X9: [send] never hands the kernel an empty write, nor one longer than
    the shared chunk size: every write of a call is on the handle's own
    descriptor, with MSG_NOSIGNAL, of at least one byte and of at most
    [sendBufSize] bytes. *)
Theorem send_writes_within_chunk (this : TEpollSocket) (w : World)
    (ret : Z) (this' : TEpollSocket) (w' : World) (ev : list Event) :
  send this w = Some (ret, this', w', ev) ->
  forall fd data flags,
    In (EvSend fd data flags) ev ->
    fd = sd this /\ flags = Sys.MSG_NOSIGNAL /\
    0 < size data <= sendBufSize w.
Proof.
  intros Hsend fd data flags Hin.
  destruct (@send_returned _ _ _ _ _ _ Hsend)
    as [(_ & _ & _ & -> & _)
       |(head & rest & r & head' & evLog & _ & _ & Hloop & Hc & _ & _ & ->)].
  - destruct Hin.
  - pose proof (@send_loop_writes_bounded _ _ _ _ _ _ _ Hloop) as Hb.
    rewrite Forall_forall in Hb.
    destruct (send_classify_cases this r)
      as (ret0 & head0 & evLog0 & Hc0 & _ & _ & _ & _ & _ & HevLog & _).
    rewrite Hc in Hc0. injection Hc0 as <- <- <-.
    apply in_send_events in Hin. destruct Hin as [Hin|[Hin|[Hin|Hin]]].
    + destruct (Hb _ Hin) as (d & He & Hd).
      injection He as -> -> ->. repeat split; lia.
    + destruct (HevLog _ Hin) as (lv & fmt & args & Hx). discriminate Hx.
    + apply in_finalEvents in Hin.
      destruct Hin as [_ [Hx|Hx]]; discriminate Hx.
    + apply in_rearm in Hin. destruct Hin as [Hx _]. discriminate Hx.
Qed.

Lemma send_writes_within_chunk_witness :
  7 = sd fiveBytesQueued /\ Sys.MSG_NOSIGNAL = Sys.MSG_NOSIGNAL /\
  0 < size [x43; x44] <= sendBufSize blocksAfterTwoBytes.
Proof.
  apply (@send_writes_within_chunk fiveBytesQueued blocksAfterTwoBytes 0
           midTransmission
           (mkWorld Sys.EAGAIN 2 4096 (skipn 2 (oracle blocksAfterTwoBytes)))
           [EvSend 7 [x41; x42] Sys.MSG_NOSIGNAL;
            EvSend 7 [x43; x44] Sys.MSG_NOSIGNAL]).
  - reflexivity.
  - right. left. reflexivity.
Defined.

(** X10: the logger counts what was consumed.  A call that got past the
    guards leaves the head either in front of the queue, nothing flushed or
    deleted, or out of the queue, in which case the one buffer it deleted
    is the head and the one logger it flushed is that buffer's.  In both
    cases, for that very buffer: when the call returns 0, the byte count of
    its logger has grown by exactly as much as its cursor has advanced;
    when the call returns -1, the byte count is the sentinel -1 whatever
    was sent before. *)
Theorem send_logger_counts_cursor (this : TEpollSocket) (w : World)
    (head : TSendBuffer) (rest : list TSendBuffer)
    (ret : Z) (this' : TEpollSocket) (w' : World) (ev : list Event) :
  sendBuf this = head :: rest ->
  deleting this = false ->
  send this w = Some (ret, this', w', ev) ->
  exists head',
    sameBuffer head head' /\
    (ret = 0 \/ ret = -1) /\
    (ret = 0 ->
     responseBytes (accessLogger head')
     = responseBytes (accessLogger head)
       + (Z.of_nat (startPos head') - Z.of_nat (startPos head))) /\
    (ret = -1 -> responseBytes (accessLogger head') = -1) /\
    ((sendBuf this' = head' :: rest /\
      (forall b, ~ In (EvDeleteBuffer b) ev) /\
      (forall lg, ~ In (EvLoggerWrite lg) ev))
     \/
     (sendBuf this' = rest /\
      In (EvDeleteBuffer head') ev /\
      In (EvLoggerWrite (accessLogger head')) ev /\
      (forall b, In (EvDeleteBuffer b) ev -> b = head') /\
      (forall lg, In (EvLoggerWrite lg) ev -> lg = accessLogger head'))).
Proof.
  intros Hq Hdel Hsend.
  destruct (@send_returned _ _ _ _ _ _ Hsend)
    as [(_ & _ & _ & _ & [Habs|Habs])
       |(head0 & rest0 & r & head' & evLog & Hq0 & _ & Hloop & Hc & -> & _
         & ->)].
  - rewrite Hq in Habs. discriminate Habs.
  - rewrite Hdel in Habs. discriminate Habs.
  - rewrite Hq in Hq0. injection Hq0 as <- <-.
    destruct (@send_loop_inv _ _ _ _ _ _ _ Hloop) as [Hsame Hsends].
    rewrite Forall_forall in Hsends.
    pose proof (@send_loop_counts _ _ _ _ _ _ _ Hloop) as Hcount.
    destruct (send_classify_cases this r)
      as (ret0 & head0 & evLog0 & Hc0 & Hret & _ & Hkeep & Hfail & Hsame'
          & HevLog & _).
    rewrite Hc in Hc0. injection Hc0 as <- <- <-.
    assert (Hfin : forall q e,
              In e (slEvents r ++ evLog ++ finalEvents head' ret
                    ++ rearm this (slErr r) q) ->
              (exists lg, e = EvLoggerWrite lg) \/
              (exists b, e = EvDeleteBuffer b) ->
              In e (finalEvents head' ret)).
    { intros q e Hin Hkind. apply in_send_events in Hin.
      destruct Hin as [Hin|[Hin|[Hin|Hin]]].
      - destruct (headChunk_is_send (Hsends _ Hin)) as (d & fl & ->).
        destruct Hkind as [[x Hx]|[x Hx]]; discriminate Hx.
      - destruct (HevLog _ Hin) as (lv & fmt & args & ->).
        destruct Hkind as [[x Hx]|[x Hx]]; discriminate Hx.
      - exact Hin.
      - apply in_rearm in Hin. destruct Hin as [-> _].
        destruct Hkind as [[x Hx]|[x Hx]]; discriminate Hx. }
    exists head'. split; [exact (@sameBuffer_trans _ _ _ Hsame Hsame')|].
    split; [exact Hret|]. split; [|split].
    + intros Hz. rewrite (Hkeep Hz). exact Hcount.
    + intros Hm. rewrite Hfail by lia. reflexivity.
    + simpl sendBuf. unfold finalQueue.
      destruct (atEnd head' || (ret <? 0)) eqn:Hb; [right | left].
      * assert (Hf : finalized head' ret) by (apply finalized_dec, Hb).
        split; [reflexivity|].
        split; [apply in_send_events; right; right; left;
                apply in_finalEvents; tauto|].
        split; [apply in_send_events; right; right; left;
                apply in_finalEvents; tauto|].
        split.
        -- intros b Hin.
           assert (Hin' := Hfin _ _ Hin (or_intror (ex_intro _ b eq_refl))).
           apply in_finalEvents in Hin'.
           destruct Hin' as [_ [He|He]]; [discriminate He|].
           injection He as ->. reflexivity.
        -- intros lg Hin.
           assert (Hin' := Hfin _ _ Hin (or_introl (ex_intro _ lg eq_refl))).
           apply in_finalEvents in Hin'.
           destruct Hin' as [_ [He|He]]; [|discriminate He].
           injection He as ->. reflexivity.
      * assert (Hnf : ~ finalized head' ret).
        { intros Hf. apply finalized_dec in Hf. rewrite Hb in Hf.
          discriminate Hf. }
        split; [reflexivity|]. split.
        -- intros b Hin.
           assert (Hin' := Hfin _ _ Hin (or_intror (ex_intro _ b eq_refl))).
           apply in_finalEvents in Hin'. tauto.
        -- intros lg Hin.
           assert (Hin' := Hfin _ _ Hin (or_introl (ex_intro _ lg eq_refl))).
           apply in_finalEvents in Hin'. tauto.
Qed.

Lemma send_logger_counts_cursor_witness :
  let head := createSendBuffer [x41; x42; x43; x44; x45] in
  let rest := [createSendBufferFile [x61; x62] (Some (mkFile [x63; x64; x65]))
                                    true (mkLogger 0)] in
  let this' := setSendBuf rest idleHandle in
  let ev := [EvSend 7 [x41; x42] Sys.MSG_NOSIGNAL;
             EvSend 7 [x43; x44] Sys.MSG_NOSIGNAL;
             EvSend 7 [x45] Sys.MSG_NOSIGNAL;
             EvLoggerWrite (mkLogger 5);
             EvDeleteBuffer
               (mkSendBuffer [x41; x42; x43; x44; x45] None false 5
                             (mkLogger 5));
             EvModifyPoll [x30] rearmEvents] in
  exists head',
    sameBuffer head head' /\
    (0 = 0 \/ 0 = -1) /\
    (0 = 0 ->
     responseBytes (accessLogger head')
     = responseBytes (accessLogger head)
       + (Z.of_nat (startPos head') - Z.of_nat (startPos head))) /\
    (0 = -1 -> responseBytes (accessLogger head') = -1) /\
    ((sendBuf this' = head' :: rest /\
      (forall b, ~ In (EvDeleteBuffer b) ev) /\
      (forall lg, ~ In (EvLoggerWrite lg) ev))
     \/
     (sendBuf this' = rest /\
      In (EvDeleteBuffer head') ev /\
      In (EvLoggerWrite (accessLogger head')) ev /\
      (forall b, In (EvDeleteBuffer b) ev -> b = head') /\
      (forall lg, In (EvLoggerWrite lg) ev -> lg = accessLogger head'))).
Proof.
  apply (@send_logger_counts_cursor idleHandle takesEverything
           (createSendBuffer [x41; x42; x43; x44; x45])
           [createSendBufferFile [x61; x62] (Some (mkFile [x63; x64; x65]))
                                 true (mkLogger 0)]
           0
           (setSendBuf
              [createSendBufferFile [x61; x62]
                 (Some (mkFile [x63; x64; x65])) true (mkLogger 0)]
              idleHandle)
           (mkWorld 0 2 4096 [mkAnswer 2 None NoOut; mkAnswer 2 None NoOut]));
    reflexivity.
Defined.

(** ** Accounting across calls *)

Lemma sumZ_app (l1 l2 : list Z) : sumZ (l1 ++ l2) = sumZ l1 + sumZ l2.
Proof.
  unfold sumZ. induction l1 as [|x l1 IH]; simpl; [reflexivity|].
  rewrite IH. lia.
Qed.

Lemma setSendBuf_same (this : TEpollSocket) :
  setSendBuf (sendBuf this) this = this.
Proof. destruct this. reflexivity. Qed.

(** X11: a call of [send] takes at most one buffer off the queue, and
    [bufferedListCount] follows.  Either the call deletes no buffer: the
    head, further along or not, is still in front of the same tail and the
    count is what it was.  Or it deletes exactly one buffer, the head: the
    queue is the former tail, the count is one less, and [bufferedBytes]
    is the sum over that tail, the finished buffer no longer counted. *)
Theorem send_count_moves_on_finalization (this : TEpollSocket)
    (w : World) (head : TSendBuffer) (rest : list TSendBuffer)
    (ret : Z) (this' : TEpollSocket) (w' : World) (ev : list Event) :
  sendBuf this = head :: rest ->
  deleting this = false ->
  send this w = Some (ret, this', w', ev) ->
  ((forall b, ~ In (EvDeleteBuffer b) ev) /\
   (exists head', sendBuf this' = head' :: rest /\ sameBuffer head head') /\
   bufferedListCount this' = bufferedListCount this)
  \/
  ((exists b,
      In (EvDeleteBuffer b) ev /\ sameBuffer head b /\
      forall b', In (EvDeleteBuffer b') ev -> b' = b) /\
   sendBuf this' = rest /\
   bufferedListCount this' = bufferedListCount this - 1 /\
   bufferedBytes this' = qint64 (sumZ (map storedBytes rest))).
Proof.
  intros Hq Hdel Hsend.
  destruct (@send_returned _ _ _ _ _ _ Hsend)
    as [(_ & _ & _ & _ & [Habs|Habs])
       |(head0 & rest0 & r & head' & evLog & Hq0 & _ & Hloop & Hc & -> & _
         & ->)].
  - rewrite Hq in Habs. discriminate Habs.
  - rewrite Hdel in Habs. discriminate Habs.
  - rewrite Hq in Hq0. injection Hq0 as <- <-.
    destruct (@send_loop_inv _ _ _ _ _ _ _ Hloop) as [Hsame Hsends].
    rewrite Forall_forall in Hsends.
    destruct (send_classify_cases this r)
      as (ret0 & head0 & evLog0 & Hc0 & _ & _ & _ & _ & Hsame' & HevLog & _).
    rewrite Hc in Hc0. injection Hc0 as <- <- <-.
    pose proof (@sameBuffer_trans _ _ _ Hsame Hsame') as Hhead.
    assert (Hdeleted : forall q b,
              In (EvDeleteBuffer b)
                 (slEvents r ++ evLog ++ finalEvents head' ret
                  ++ rearm this (slErr r) q) ->
              finalized head' ret /\ b = head').
    { intros q b Hin. apply in_send_events in Hin.
      destruct Hin as [Hin|[Hin|[Hin|Hin]]].
      - destruct (headChunk_is_send (Hsends _ Hin)) as (d & fl & Hx).
        discriminate Hx.
      - destruct (HevLog _ Hin) as (lv & fmt & args & Hx). discriminate Hx.
      - apply in_finalEvents in Hin. destruct Hin as [Hf [Hx|Hx]].
        + discriminate Hx.
        + injection Hx as ->. split; [exact Hf | reflexivity].
      - apply in_rearm in Hin. destruct Hin as [Hx _]. discriminate Hx. }
    unfold bufferedListCount. rewrite bufferedBytes_sum. simpl sendBuf.
    rewrite Hq. unfold finalQueue.
    destruct (atEnd head' || (ret <? 0)) eqn:Hb.
    + right. split; [|split; [reflexivity|split; [|reflexivity]]].
      * exists head'. split; [|split; [exact Hhead|]].
        -- apply in_send_events. right. right. left.
           apply in_finalEvents.
           split; [apply finalized_dec, Hb | right; reflexivity].
        -- intros b' Hin. apply (Hdeleted _ _ Hin).
      * simpl length. lia.
    + left. split; [|split; [|reflexivity]].
      * intros b Hin. destruct (Hdeleted _ _ Hin) as [Hf _].
        apply finalized_dec in Hf. rewrite Hb in Hf. discriminate Hf.
      * exists head'. split; [reflexivity | exact Hhead].
Qed.

Lemma send_count_moves_on_finalization_witness :
  let head := createSendBuffer [x41; x42; x43; x44; x45] in
  let rest := [createSendBufferFile [x61; x62] (Some (mkFile [x63; x64; x65]))
                                    true (mkLogger 0)] in
  let this' := setSendBuf rest idleHandle in
  let ev := [EvSend 7 [x41; x42] Sys.MSG_NOSIGNAL;
             EvSend 7 [x43; x44] Sys.MSG_NOSIGNAL;
             EvSend 7 [x45] Sys.MSG_NOSIGNAL;
             EvLoggerWrite (mkLogger 5);
             EvDeleteBuffer
               (mkSendBuffer [x41; x42; x43; x44; x45] None false 5
                             (mkLogger 5));
             EvModifyPoll [x30] rearmEvents] in
  ((forall b, ~ In (EvDeleteBuffer b) ev) /\
   (exists head', sendBuf this' = head' :: rest /\ sameBuffer head head') /\
   bufferedListCount this' = bufferedListCount idleHandle)
  \/
  ((exists b,
      In (EvDeleteBuffer b) ev /\ sameBuffer head b /\
      forall b', In (EvDeleteBuffer b') ev -> b' = b) /\
   sendBuf this' = rest /\
   bufferedListCount this' = bufferedListCount idleHandle - 1 /\
   bufferedBytes this' = qint64 (sumZ (map storedBytes rest))).
Proof.
  apply (@send_count_moves_on_finalization idleHandle takesEverything
           (createSendBuffer [x41; x42; x43; x44; x45])
           [createSendBufferFile [x61; x62] (Some (mkFile [x63; x64; x65]))
                                 true (mkLogger 0)]
           0
           (setSendBuf
              [createSendBufferFile [x61; x62]
                 (Some (mkFile [x63; x64; x65])) true (mkLogger 0)]
              idleHandle)
           (mkWorld 0 2 4096 [mkAnswer 2 None NoOut; mkAnswer 2 None NoOut]));
    reflexivity.
Defined.

(** ** Enqueueing *)

(** X12: [enqueueSendData] puts the buffer at the tail and touches nothing
    else: the count grows by one, [bufferedBytes] grows by the stored size
    of the buffer (in 64 bits), and the buffer in front is the one that was
    in front, or the new one when the queue was empty. *)
Theorem enqueue_appends_at_tail (buffer : TSendBuffer)
    (this : TEpollSocket) :
  let this' := enqueueSendData buffer this in
  sendBuf this' = sendBuf this ++ [buffer] /\
  this' = setSendBuf (sendBuf this') this /\
  bufferedListCount this' = bufferedListCount this + 1 /\
  bufferedBytes this' = qint64 (bufferedBytes this + storedBytes buffer) /\
  hd_error (sendBuf this')
  = match sendBuf this with
    | [] => Some buffer
    | head :: _ => Some head
    end.
Proof.
  intros this'. subst this'. unfold enqueueSendData.
  split; [reflexivity|]. split; [reflexivity|]. split; [|split].
  - unfold bufferedListCount. simpl sendBuf. rewrite length_app. simpl. lia.
  - rewrite !bufferedBytes_sum. simpl sendBuf.
    rewrite map_app, sumZ_app, qint64_add_l. simpl. f_equal.
    unfold sumZ. simpl. lia.
  - simpl sendBuf. destruct (sendBuf this); reflexivity.
Qed.

(** X13: a buffer enqueued behind a queue that is not empty does not
    change what the next call of [send] does with the head: the same
    writes, the same return value, the same world afterwards, and the
    queue left is the one the call would have left, with the new buffer at
    its tail.  The one thing that can differ is the request for a fresh
    edge, which looks at the queue that is left. *)
Theorem enqueue_then_send_commute (buffer : TSendBuffer)
    (this : TEpollSocket) (w : World)
    (head : TSendBuffer) (rest : list TSendBuffer)
    (ret : Z) (this' : TEpollSocket) (w' : World) (ev : list Event) :
  sendBuf this = head :: rest ->
  deleting this = false ->
  send this w = Some (ret, this', w', ev) ->
  exists evs err,
    ev = evs ++ rearm this err (sendBuf this') /\
    send (enqueueSendData buffer this) w
    = Some (ret, enqueueSendData buffer this', w',
            evs ++ rearm this err (sendBuf this' ++ [buffer])).
Proof.
  intros Hq Hdel Hsend.
  destruct (@send_returned _ _ _ _ _ _ Hsend)
    as [(_ & _ & _ & _ & [Habs|Habs])
       |(head0 & rest0 & r & head' & evLog & Hq0 & _ & Hloop & Hc & -> & ->
         & ->)].
  - rewrite Hq in Habs. discriminate Habs.
  - rewrite Hdel in Habs. discriminate Habs.
  - rewrite Hq in Hq0. injection Hq0 as <- <-.
    exists (slEvents r ++ evLog ++ finalEvents head' ret), (slErr r).
    split; [rewrite <- !app_assoc; reflexivity|].
    assert (Hq' : sendBuf (enqueueSendData buffer this)
                  = head :: rest ++ [buffer])
      by (unfold enqueueSendData; simpl; rewrite Hq; reflexivity).
    assert (Hdel' : deleting (enqueueSendData buffer this) = false)
      by exact Hdel.
    destruct (@send_unfold (enqueueSendData buffer this) w head
                (rest ++ [buffer]) r Hq' Hdel' Hloop) as [Hsend' _].
    rewrite Hsend'.
    rewrite (@send_finish_classified (enqueueSendData buffer this) w
               (rest ++ [buffer]) r _ _ _ Hc).
    assert (Hfq : finalQueue head' ret (rest ++ [buffer])
                  = finalQueue head' ret rest ++ [buffer])
      by (unfold finalQueue; destruct (atEnd head' || (ret <? 0));
          reflexivity).
    rewrite Hfq. simpl sendBuf. rewrite <- !app_assoc. reflexivity.
Qed.

Lemma enqueue_then_send_commute_witness :
  let buffer := createSendBuffer [x7a] in
  exists evs err,
    [EvSend 7 [x41; x42] Sys.MSG_NOSIGNAL;
     EvSend 7 [x43; x44] Sys.MSG_NOSIGNAL]
    = evs ++ rearm fiveBytesQueued err (sendBuf midTransmission) /\
    send (enqueueSendData buffer fiveBytesQueued) blocksAfterTwoBytes
    = Some (0, enqueueSendData buffer midTransmission,
            mkWorld Sys.EAGAIN 2 4096 (skipn 2 (oracle blocksAfterTwoBytes)),
            evs ++ rearm fiveBytesQueued err
                         (sendBuf midTransmission ++ [buffer])).
Proof.
  apply (@enqueue_then_send_commute (createSendBuffer [x7a]) fiveBytesQueued
           blocksAfterTwoBytes
           (createSendBuffer [x41; x42; x43; x44; x45]) [] 0
           midTransmission
           (mkWorld Sys.EAGAIN 2 4096 (skipn 2 (oracle blocksAfterTwoBytes)))
           [EvSend 7 [x41; x42] Sys.MSG_NOSIGNAL;
            EvSend 7 [x43; x44] Sys.MSG_NOSIGNAL]);
    reflexivity.
Defined.

(** ** Any number of calls *)

Lemma laterQueue_refl (q : list TSendBuffer) : laterQueue q q.
Proof.
  destruct q as [|h tl]; [left; reflexivity|].
  right. exists [], h, h, tl. repeat split. apply Nat.le_refl.
Qed.

Lemma laterQueue_trans (q1 q2 q3 : list TSendBuffer) :
  laterQueue q1 q2 -> laterQueue q2 q3 -> laterQueue q1 q3.
Proof.
  intros H12 [->|(pre' & h2 & h3 & tl' & Hq2 & -> & Hs23)];
    [left; reflexivity|].
  destruct H12 as [->|(pre & h & h1 & tl & -> & -> & Hs12)].
  - destruct pre'; discriminate Hq2.
  - right. destruct pre' as [|x pre'].
    + injection Hq2 as <- <-.
      exists pre, h, h3, tl. repeat split; try apply Hs12; try apply Hs23.
      * destruct Hs12 as (Ha & _), Hs23 as (Ha' & _). congruence.
      * destruct Hs12 as (_ & Hf & _), Hs23 as (_ & Hf' & _). congruence.
      * destruct Hs12 as (_ & _ & Hr & _), Hs23 as (_ & _ & Hr' & _).
        congruence.
      * destruct Hs12 as (_ & _ & _ & Hp), Hs23 as (_ & _ & _ & Hp'). lia.
    + injection Hq2 as <- ->.
      exists (pre ++ h :: pre'), h2, h3, tl'.
      split; [rewrite <- app_assoc; reflexivity|].
      split; [reflexivity | exact Hs23].
Qed.

Lemma laterQueue_in (q q' : list TSendBuffer) (b' : TSendBuffer) :
  laterQueue q q' -> In b' q' ->
  exists b, In b q /\ sameBuffer b b'.
Proof.
  intros [->|(pre & h & h' & tl & -> & -> & Hs)] Hin; [destruct Hin|].
  destruct Hin as [<-|Hin].
  - exists h. split; [apply in_elt | exact Hs].
  - exists b'. split; [|repeat split; apply Nat.le_refl].
    apply in_or_app. right. right. exact Hin.
Qed.

(** One call: buffers only leave from the front. *)
Lemma send_step (this : TEpollSocket) (w : World) (ret : Z)
    (this' : TEpollSocket) (w' : World) (ev : list Event) :
  send this w = Some (ret, this', w', ev) ->
  laterQueue (sendBuf this) (sendBuf this') /\
  this' = setSendBuf (sendBuf this') this /\
  sendBufSize w' = sendBufSize w /\
  recvBufSize w' = recvBufSize w /\
  forall fd data flags,
    In (EvSend fd data flags) ev ->
    exists h,
      In h (sendBuf this) /\
      headChunk (sd this) (sendBufSize w) h (EvSend fd data flags).
Proof.
  intros Hsend.
  destruct (@send_returned _ _ _ _ _ _ Hsend)
    as [(_ & -> & -> & -> & _)
       |(head & rest & r & head' & evLog & Hq & _ & Hloop & Hc & -> & ->
         & ->)].
  - split; [apply laterQueue_refl|].
    split; [symmetry; apply setSendBuf_same|].
    split; [reflexivity|]. split; [reflexivity|]. intros fd data flags [].
  - destruct (@send_loop_inv _ _ _ _ _ _ _ Hloop) as [Hsame Hsends].
    rewrite Forall_forall in Hsends.
    destruct (send_classify_cases this r)
      as (ret0 & head0 & evLog0 & Hc0 & _ & _ & _ & _ & Hsame' & HevLog & _).
    rewrite Hc in Hc0. injection Hc0 as <- <- <-.
    simpl sendBuf. split; [|split; [reflexivity|split; [reflexivity|split;
      [reflexivity|]]]].
    + rewrite Hq. unfold finalQueue.
      destruct (atEnd head' || (ret <? 0)).
      * destruct rest as [|h tl]; [left; reflexivity|].
        right. exists [head], h, h, tl. repeat split. apply Nat.le_refl.
      * right. exists [], head, head', rest.
        split; [reflexivity|]. split; [reflexivity|].
        exact (@sameBuffer_trans _ _ _ Hsame Hsame').
    + intros fd data flags Hin. exists head.
      split; [rewrite Hq; left; reflexivity|].
      apply in_send_events in Hin. destruct Hin as [Hin|[Hin|[Hin|Hin]]].
      * apply Hsends, Hin.
      * destruct (HevLog _ Hin) as (lv & fmt & args & Hx). discriminate Hx.
      * apply in_finalEvents in Hin.
        destruct Hin as [_ [Hx|Hx]]; discriminate Hx.
      * apply in_rearm in Hin. destruct Hin as [Hx _]. discriminate Hx.
Qed.

(** X14: whatever the kernel answers and however many times [send] is
    called, the queue keeps its order: what is left after the calls is
    empty or a tail of the queue the calls started from, its first buffer
    possibly further along; nothing else of the handle has changed, the
    shared sizes are as they were, and every write any of the calls made
    carried a chunk of one of the buffers that were queued at the start. *)
Theorem sendTimes_keeps_queue_order (n : nat) :
  forall (this : TEpollSocket) (w : World) (this' : TEpollSocket)
         (w' : World) (ev : list Event),
    sendTimes n this w = Some (this', w', ev) ->
    laterQueue (sendBuf this) (sendBuf this') /\
    this' = setSendBuf (sendBuf this') this /\
    sendBufSize w' = sendBufSize w /\
    recvBufSize w' = recvBufSize w /\
    forall fd data flags,
      In (EvSend fd data flags) ev ->
      exists h,
        In h (sendBuf this) /\
        headChunk (sd this) (sendBufSize w) h (EvSend fd data flags).
Proof.
  induction n as [|n IH]; intros this w this' w' ev Htimes.
  - injection Htimes as <- <- <-.
    split; [apply laterQueue_refl|].
    split; [symmetry; apply setSendBuf_same|].
    split; [reflexivity|]. split; [reflexivity|]. intros fd data flags [].
  - simpl in Htimes.
    destruct (send this w) as [[[[ret this1] w1] ev1]|] eqn:Hsend;
      [|discriminate].
    destruct (sendTimes n this1 w1) as [[[this2 w2] ev2]|] eqn:Hrest;
      [|discriminate].
    injection Htimes as <- <- <-.
    destruct (@send_step _ _ _ _ _ _ Hsend) as (Hq1 & Ht1 & Hs1 & Hr1 & Hw1).
    destruct (IH _ _ _ _ _ Hrest) as (Hq2 & Ht2 & Hs2 & Hr2 & Hw2).
    split; [exact (@laterQueue_trans _ _ _ Hq1 Hq2)|].
    split; [rewrite Ht2 at 1; rewrite Ht1; reflexivity|].
    split; [congruence|]. split; [congruence|].
    intros fd data flags Hin. apply in_app_or in Hin.
    destruct Hin as [Hin|Hin]; [exact (Hw1 _ _ _ Hin)|].
    destruct (Hw2 _ _ _ Hin) as (h1 & Hin1 & Hchunk).
    destruct (@laterQueue_in _ _ _ Hq1 Hin1) as (h & Hinh & Hsame).
    exists h. split; [exact Hinh|].
    rewrite Ht1 in Hchunk. simpl sd in Hchunk. rewrite Hs1 in Hchunk.
    exact (@headChunk_later _ _ _ _ _ Hsame Hchunk).
Qed.

Lemma sendTimes_keeps_queue_order_witness :
  let this := idleHandle in
  let w := blocksAfterTwoBytes in
  let this' := setSendBuf (tl (sendBuf idleHandle)) idleHandle in
  let w' := mkWorld 0 2 4096 [mkAnswer (-1) (Some Sys.EAGAIN) NoOut] in
  let ev := [EvSend 7 [x41; x42] Sys.MSG_NOSIGNAL;
             EvSend 7 [x43; x44] Sys.MSG_NOSIGNAL;
             EvSend 7 [x43; x44] Sys.MSG_NOSIGNAL;
             EvSend 7 [x45] Sys.MSG_NOSIGNAL;
             EvLoggerWrite (mkLogger 5);
             EvDeleteBuffer
               (mkSendBuffer [x41; x42; x43; x44; x45] None false 5
                             (mkLogger 5));
             EvModifyPoll [x30] rearmEvents] in
  laterQueue (sendBuf this) (sendBuf this') /\
  this' = setSendBuf (sendBuf this') this /\
  sendBufSize w' = sendBufSize w /\
  recvBufSize w' = recvBufSize w /\
  forall fd data flags,
    In (EvSend fd data flags) ev ->
    exists h,
      In h (sendBuf this) /\
      headChunk (sd this) (sendBufSize w) h (EvSend fd data flags).
Proof.
  apply (@sendTimes_keeps_queue_order 2 idleHandle blocksAfterTwoBytes).
  reflexivity.
Defined.

(** Two calls on [blocksAfterTwoBytes]: the first stops at EAGAIN after two
    bytes, the second sends the last three and finalizes the head. *)
Example sendTimes_two_calls :
  sendTimes 2 idleHandle blocksAfterTwoBytes
  = Some (setSendBuf (tl (sendBuf idleHandle)) idleHandle,
          mkWorld 0 2 4096 [mkAnswer (-1) (Some Sys.EAGAIN) NoOut],
          [EvSend 7 [x41; x42] Sys.MSG_NOSIGNAL;
           EvSend 7 [x43; x44] Sys.MSG_NOSIGNAL;
           EvSend 7 [x43; x44] Sys.MSG_NOSIGNAL;
           EvSend 7 [x45] Sys.MSG_NOSIGNAL;
           EvLoggerWrite (mkLogger 5);
           EvDeleteBuffer
             (mkSendBuffer [x41; x42; x43; x44; x45] None false 5
                           (mkLogger 5));
           EvModifyPoll [x30] rearmEvents]).
Proof. reflexivity. Qed.

Lemma send_when_deleting (this : TEpollSocket) (w : World) :
  deleting this = true -> send this w = Some (0, this, w, []).
Proof.
  intros Hdel. unfold send. rewrite Hdel.
  destruct (sendBuf this); reflexivity.
Qed.

(** X15: what is still queued when [deleteLater] is called is never sent:
    after the call, be a worker attached or not, any number of calls of
    [send] write nothing, flush nothing and leave handle and world as they
    are; the queue is the one [deleteLater] found, left for the destructor
    to delete. *)
Theorem deleteLater_silences_send (n : nat) (this : TEpollSocket)
    (w : World) :
  let marked := fst (deleteLater this) in
  sendBuf marked = sendBuf this /\
  bufferedBytes marked = bufferedBytes this /\
  sendTimes n marked w = Some (marked, w, []).
Proof.
  intros marked.
  assert (Hq : sendBuf marked = sendBuf this).
  { unfold marked, deleteLater. simpl.
    destruct (myWorkerCounter this =? 0); reflexivity. }
  assert (Hdel : deleting marked = true).
  { unfold marked, deleteLater. simpl.
    destruct (myWorkerCounter this =? 0); reflexivity. }
  split; [exact Hq|]. split.
  - unfold bufferedBytes. rewrite Hq. reflexivity.
  - induction n as [|n IH]; [reflexivity|].
    simpl. rewrite (send_when_deleting marked w Hdel), IH. reflexivity.
Qed.

(** ** Receiving, call after call *)

(** X16: data is appended in arrival order across calls.  A first burst of
    reads ended by EAGAIN makes [recv] return 0; when, on the next readable
    event, a second burst is read, the buffer holds what it held before the
    first call, then the first burst, then the second, whatever the second
    call returns; the two calls made one read per answer and no more. *)
Theorem recv_twice_keeps_arrival_order (this : TEpollSocket) (w : World)
    (pos1 pos2 : list Answer) (a1 a2 : Answer) (k : list Answer) :
  oracle w = pos1 ++ a1 :: pos2 ++ a2 :: k ->
  Forall (goodRead (recvBufSize w)) pos1 ->
  Forall (goodRead (recvBufSize w)) pos2 ->
  ansRet a1 <= 0 ->
  errnoAfter 0 a1 = Sys.EAGAIN ->
  ansRet a2 <= 0 ->
  exists this1 w1 ev1 ret2 this2 w2 ev2,
    recv this w = Some (0, this1, w1, ev1) /\
    recv this1 w1 = Some (ret2, this2, w2, ev2) /\
    rbData (recvBuf this2)
    = rbData (recvBuf this)
      ++ concat (map outBytes pos1) ++ concat (map outBytes pos2) /\
    oracle w2 = k /\
    length ev1 = S (length pos1) /\
    ret2 = (if errnoAfter 0 a2 =? Sys.EAGAIN then 0 else -1).
Proof.
  intros Hk Hg1 Hg2 Hl1 He1 Hl2.
  pose proof (@recv_loop_runs (sd this) (recvBufSize w) pos1 a1
                (pos2 ++ a2 :: k) (goodRead_positive Hg1) Hl1
                (recvBuf this)) as Hloop1.
  rewrite <- Hk in Hloop1.
  pose proof (recv_unfold this w Hloop1) as Hrecv1.
  rewrite He1 in Hrecv1. simpl in Hrecv1. rewrite app_nil_r in Hrecv1.
  match type of Hrecv1 with
  | _ = Some (_, ?t, ?v, _) => set (this1 := t) in *; set (w1 := v) in *
  end.
  pose proof (@recv_loop_runs (sd this1) (recvBufSize w1) pos2 a2 k
                (goodRead_positive Hg2) Hl2 (recvBuf this1)) as Hloop2.
  pose proof (recv_unfold this1 w1 Hloop2) as Hrecv2.
  eexists _, _, _, _, _, _, _.
  split; [exact Hrecv1|]. split; [exact Hrecv2|].
  split; [|split; [reflexivity|split; [|reflexivity]]].
  - simpl. rewrite (recv_turns_good Hg2). simpl.
    rewrite (recv_turns_good Hg1). symmetry. apply app_assoc.
  - simpl. rewrite repeat_length. reflexivity.
Qed.

Lemma recv_twice_keeps_arrival_order_witness :
  exists this1 w1 ev1 ret2 this2 w2 ev2,
    recv readingHandle twoBursts = Some (0, this1, w1, ev1) /\
    recv this1 w1 = Some (ret2, this2, w2, ev2) /\
    rbData (recvBuf this2)
    = [x47; x45; x54] ++ [x20; x2f] ++ [x61; x62; x63] /\
    oracle w2 = [] /\
    length ev1 = 2%nat /\
    ret2 = 0.
Proof.
  apply (@recv_twice_keeps_arrival_order readingHandle twoBursts
           [mkAnswer 2 None (OutBytes [x20; x2f])]
           [mkAnswer 3 None (OutBytes [x61; x62; x63])]
           (mkAnswer (-1) (Some Sys.EAGAIN) NoOut)
           (mkAnswer (-1) (Some Sys.EAGAIN) NoOut) []).
  - reflexivity.
  - repeat constructor; simpl; lia.
  - repeat constructor; simpl; lia.
  - simpl. lia.
  - reflexivity.
  - simpl. lia.
Defined.

(** ** From a buffer's creation to its last byte *)

(** X17: round trip of one buffer.  A buffer made by [createSendBuffer]
    (header and optional file; the one-argument form is the same with no
    file and a fresh logger) is enqueued on an active handle whose queue is
    empty, and the kernel takes all its bytes.  Then one call of [send]
    transmits the header followed by the contents of the file, in order and
    nothing else; the logger is flushed with the number of bytes added to
    the count it came with; the queue is empty again and, there being
    nothing left to send, no fresh edge is asked for. *)
Theorem created_buffer_round_trip (this : TEpollSocket) (w : World)
    (header : bytes) (file : option QFile) (autoRemove : bool)
    (logger : TAccessLogger) (pos k : list Answer) :
  sendBuf this = [] ->
  deleting this = false ->
  oracle w = pos ++ k ->
  Forall (goodWrite (sendBufSize w)) pos ->
  let buffer := createSendBufferFile header file autoRemove logger in
  let body := match file with Some f => fileData f | None => [] end in
  sumRet pos = size (header ++ body) ->
  exists head' sends e,
    send (enqueueSendData buffer this) w
    = Some (0, this,
            mkWorld e (sendBufSize w) (recvBufSize w) k,
            sends
            ++ [EvLoggerWrite
                  (mkLogger (responseBytes logger + size (header ++ body)));
                EvDeleteBuffer head']) /\
    accepted pos sends = header ++ body /\
    length sends = length pos /\
    sameBuffer buffer head'.
Proof.
  intros Hq Hdel Hk Hgood buffer body Hsum.
  assert (Hq' : sendBuf (enqueueSendData buffer this) = [buffer])
    by (unfold enqueueSendData; simpl; rewrite Hq; reflexivity).
  assert (Hu : unsent buffer = header ++ body) by reflexivity.
  destruct (@send_all_taken (enqueueSendData buffer this) w buffer [] pos k
              Hq' Hdel Hk Hgood)
    as (head' & sends & e & Hsend & Hacc & Hlen & Hsame & _).
  { rewrite Hu. exact Hsum. }
  exists head', sends, e. rewrite Hu in Hsend, Hacc.
  split; [|split; [exact Hacc|split; [exact Hlen | exact Hsame]]].
  rewrite Hsend. clear Hsend. unfold rearm, enqueueSendData.
  destruct this as [del cnt fd id addr q rb posted].
  simpl in Hq. subst q. reflexivity.
Qed.

Lemma created_buffer_round_trip_witness :
  let buffer := createSendBufferFile [x61; x62]
                  (Some (mkFile [x63; x64; x65])) true (mkLogger 0) in
  exists head' sends e,
    send (enqueueSendData buffer readingHandle) takesFiveBytes
    = Some (0, readingHandle,
            mkWorld e 2 4096 [mkAnswer 2 None NoOut],
            sends
            ++ [EvLoggerWrite
                  (mkLogger (0 + size ([x61; x62] ++ [x63; x64; x65])));
                EvDeleteBuffer head']) /\
    accepted [mkAnswer 2 None NoOut; mkAnswer 2 None NoOut;
              mkAnswer 1 None NoOut] sends
    = [x61; x62] ++ [x63; x64; x65] /\
    length sends = 3%nat /\
    sameBuffer buffer head'.
Proof.
  apply (@created_buffer_round_trip readingHandle takesFiveBytes
           [x61; x62] (Some (mkFile [x63; x64; x65])) true (mkLogger 0)
           [mkAnswer 2 None NoOut; mkAnswer 2 None NoOut;
            mkAnswer 1 None NoOut]
           [mkAnswer 2 None NoOut]).
  - reflexivity.
  - reflexivity.
  - reflexivity.
  - repeat constructor; simpl; lia.
  - reflexivity.
Defined.
